(** * BigNum: arbitrary-precision signed integers (BigNumCalculator.cpp)

    A shallow embedding of the [BigNum] class: sign-magnitude decimal
    digit vectors, the comparison and arithmetic operators, the modular
    layer ([addMod], [mulMod], [powMod], [extendedGCD], [modInverse]) and
    the textual constructor and [toString].

    Conventions of the embedding:
    - [vector<int> digits] is a [list Z], least significant digit first;
      every [int] operation is followed by [int], the 32-bit wrap-around,
      and [long long] operations by [llong];
    - C++ [/] and [%] on machine integers truncate: [Z.quot] and [Z.rem];
    - loop counters and sizes are [nat] (vectors stay far below 2^31
      elements);
    - [throw runtime_error(...)] is [Throw e]; the operators that may
      recurse or loop without a bound known in advance take a [fuel]
      argument and answer [OutOfFuel] when it is exhausted.  Fuel counts
      down at each recursive call and loop round of an operator; the
      operators it calls receive the caller's fuel.  On canonical operands
      ten rounds serve every operator but [powMod] (one round per bit of
      the exponent) and [extendedGCD] (two rounds per bit of the second
      operand). *)

From Stdlib Require Import ZArith Lia Bool Ascii String.
From stdpp Require Import base list.

Local Open Scope Z_scope.

(** ** Machine integers *)

Definition wrap (w : Z) (z : Z) : Z := (z + 2 ^ (w - 1)) mod 2 ^ w - 2 ^ (w - 1).

(** [int]: 32 bits. *)
Definition int (z : Z) : Z := wrap 32 z.

(** [long long]: 64 bits. *)
Definition llong (z : Z) : Z := wrap 64 z.

Definition LLONG_MIN : Z := - 2 ^ 63.
Definition LLONG_MAX : Z := 2 ^ 63 - 1.

(** ** Outcomes: a value, an exception, or fuel exhausted *)

Inductive error : Type :=
| DivisionByZero   (* runtime_error("Division by zero") *)
| NoInverse.       (* runtime_error("Modular inverse does not exist") *)

Inductive outcome (A : Type) : Type :=
| Ok (a : A)
| Throw (e : error)
| OutOfFuel.

Arguments Ok {A} a.
Arguments Throw {A} e.
Arguments OutOfFuel {A}.

Definition bind {A B : Type} (x : outcome A) (k : A -> outcome B) : outcome B :=
  match x with
  | Ok a => k a
  | Throw e => Throw e
  | OutOfFuel => OutOfFuel
  end.

Declare Scope outcome_scope.
Delimit Scope outcome_scope with outcome.
Notation "'do' x <- e ; k" := (bind e (fun x => k))
  (at level 10, x name, e at level 100, k at level 200) : outcome_scope.
Notation "'do' ' p <- e ; k" := (bind e (fun x => match x with p => k end))
  (at level 10, p pattern, e at level 100, k at level 200) : outcome_scope.
Local Open Scope outcome_scope.

(** ** The class *)

Record BigNum : Type := mkBigNum {
  digits : list Z;        (* least significant first *)
  is_negative : bool
}.

(** [digits[i]]; every read in the source is guarded by the loop bounds. *)
Definition get (l : list Z) (i : nat) : Z := nth i l 0.

(** The [while] of [removeLeadingZeros], on the vector seen from its back:
    [digits.back()] is the head, [pop_back] drops it. *)
Fixpoint pop_zeros (r : list Z) : list Z :=
  match r with
  | d :: (_ :: _) as t => if d =? 0 then pop_zeros t else r
  | _ => r
  end.

Definition removeLeadingZeros (ds : list Z) : list Z := rev (pop_zeros (rev ds)).

Definition isZero_digits (ds : list Z) : bool :=
  match ds with
  | [d] => d =? 0
  | _ => false
  end.

Definition isZero (a : BigNum) : bool := isZero_digits (digits a).

Definition isOne (a : BigNum) : bool :=
  negb (is_negative a) &&
  match digits a with
  | [d] => d =? 1
  | _ => false
  end.

(** The default constructor. *)
Definition BigNum_zero : BigNum := mkBigNum [0] false.

(** *** Constructor from [long long] *)

(** [while (num > 0) { push_back(num % 10); num /= 10; }].  A [long long]
    has at most 19 decimal digits, so the round counter [k] (64 at the
    call) never runs out first; see [push_digits_fuel]. *)
Fixpoint push_digits (k : nat) (num : Z) (ds : list Z) : list Z :=
  match k with
  | O => ds
  | S k' =>
    if 0 <? num
    then push_digits k' (llong (Z.quot num 10)) (ds ++ [int (Z.rem num 10)])
    else ds
  end.

Definition BigNum_of_ll (num : Z) : BigNum :=
  let neg := num <? 0 in
  let num := if num <? 0 then llong (- num) else num in
  if num =? 0
  then mkBigNum [0] false
  else mkBigNum (push_digits 64 num []) neg.

(** *** Constructor from a string *)

Definition is_digit_char (c : ascii) : bool :=
  ((48 <=? nat_of_ascii c) && (nat_of_ascii c <=? 57))%nat.

(** [str[i] - '0'] *)
Definition digit_of_char (c : ascii) : Z := Z.of_nat (nat_of_ascii c) - 48.

(** [for (i = str.length() - 1; i >= start; i--)], with [k] rounds left
    the index is [start + k - 1]. *)
Fixpoint parse_loop (k start : nat) (str : list ascii) (ds : list Z) : list Z :=
  match k with
  | O => ds
  | S k' =>
    let c := nth (start + k')%nat str zero in
    parse_loop k' start str
      (if is_digit_char c then ds ++ [digit_of_char c] else ds)
  end.

Definition BigNum_of_string (s : string) : BigNum :=
  let str := list_ascii_of_string s in
  match str with
  | [] => mkBigNum [0] false
  | c0 :: _ =>
    let neg := Ascii.eqb c0 "-"%char in
    let start := if neg then 1%nat else 0%nat in
    let ds := parse_loop (List.length str - start) start str [] in
    let '(ds, neg) := match ds with [] => ([0], false) | _ => (ds, neg) end in
    let ds := removeLeadingZeros ds in
    mkBigNum ds (if isZero_digits ds then false else neg)
  end.

(** *** [toString] *)

(** The conversion of [digits[i] + '0'] (an [int]) to [char]. *)
Definition char_of_int (z : Z) : ascii := ascii_of_N (Z.to_N (z mod 256)).

(** [for (i = size - 1; i >= 0; i--) result += (digits[i] + '0');] *)
Fixpoint toString_loop (k : nat) (ds : list Z) (result : list ascii) : list ascii :=
  match k with
  | O => result
  | S i => toString_loop i ds (result ++ [char_of_int (int (get ds i + 48))])
  end.

Definition toString (a : BigNum) : string :=
  let result := if is_negative a && negb (isZero a) then ["-"%char] else [] in
  string_of_list_ascii (toString_loop (List.length (digits a)) (digits a) result).

(** ** Comparison *)

(** [operator==] *)
Definition list_eqb (a b : list Z) : bool := bool_decide (a = b).

Definition eqb (a b : BigNum) : bool :=
  Bool.eqb (is_negative a) (is_negative b) && list_eqb (digits a) (digits b).

(** Unary minus. *)
Definition neg (a : BigNum) : BigNum :=
  if isZero a then a else mkBigNum (digits a) (negb (is_negative a)).

(** The digit loop of [operator<], from the most significant digit down. *)
Fixpoint lt_loop (k : nat) (a b : list Z) : bool :=
  match k with
  | O => false
  | S i =>
    if negb (get a i =? get b i) then get a i <? get b i else lt_loop i a b
  end.

(** [operator<]; it calls itself on the negations when both are negative. *)
Fixpoint lt (fuel : nat) (a b : BigNum) : outcome bool :=
  match fuel with
  | O => OutOfFuel
  | S fuel' =>
    if negb (Bool.eqb (is_negative a) (is_negative b)) then Ok (is_negative a)
    else if is_negative a then lt fuel' (neg b) (neg a)
    else if negb (List.length (digits a) =? List.length (digits b))%nat
    then Ok (List.length (digits a) <? List.length (digits b))%nat
    else Ok (lt_loop (List.length (digits a)) (digits a) (digits b))
  end.

(** [operator<=]: [operator<], or else [operator==]. *)
Definition le (fuel : nat) (a b : BigNum) : outcome bool :=
  do c <- lt fuel a b; if c then Ok true else Ok (eqb a b).

(** [operator>]: the negation of [operator<=]. *)
Definition gt (fuel : nat) (a b : BigNum) : outcome bool :=
  do c <- le fuel a b; Ok (negb c).

(** [operator>=]: the negation of [operator<]. *)
Definition ge (fuel : nat) (a b : BigNum) : outcome bool :=
  do c <- lt fuel a b; Ok (negb c).

(** ** Addition and subtraction *)

(** The carry loop of [operator+]: [for (i = 0; i < maxSize || carry; i++)].
    Past [maxSize] the carry, an [int], is divided by ten each round, so
    [maxSize + 11] rounds always reach the exit test. *)
Fixpoint add_loop (k : nat) (a b : list Z) (maxSize i : nat) (carry : Z)
    (res : list Z) : list Z :=
  match k with
  | O => res
  | S k' =>
    if (i <? maxSize)%nat || negb (carry =? 0) then
      let sum := carry in
      let sum := if (i <? List.length a)%nat then int (sum + get a i) else sum in
      let sum := if (i <? List.length b)%nat then int (sum + get b i) else sum in
      add_loop k' a b maxSize (S i) (Z.quot sum 10) (res ++ [Z.rem sum 10])
    else res
  end.

(** The same-sign branch of [operator+]. *)
Definition add_same_sign (a b : BigNum) : BigNum :=
  let maxSize := Nat.max (List.length (digits a)) (List.length (digits b)) in
  let ds := add_loop (maxSize + 11) (digits a) (digits b) maxSize 0 0 [] in
  let ds := removeLeadingZeros ds in
  mkBigNum ds (if isZero_digits ds then false else is_negative a).

(** The borrow loop of [operator-]: [for (i = 0; i < digits.size(); i++)]. *)
Fixpoint sub_loop (k : nat) (a b : list Z) (i : nat) (borrow : Z)
    (res : list Z) : list Z :=
  match k with
  | O => res
  | S k' =>
    let diff := int (get a i - borrow) in
    let diff := if (i <? List.length b)%nat then int (diff - get b i) else diff in
    let '(diff, borrow) := if diff <? 0 then (int (diff + 10), 1) else (diff, 0) in
    sub_loop k' a b (S i) borrow (res ++ [diff])
  end.

(** The last part of [operator-]: both operands non-negative and the
    minuend not below the subtrahend. *)
Definition sub_digits (a b : BigNum) : BigNum :=
  mkBigNum
    (removeLeadingZeros
       (sub_loop (List.length (digits a)) (digits a) (digits b) 0 0 []))
    false.

(** [operator+] and [operator-] call each other through sign flips. *)
Fixpoint add (fuel : nat) (a b : BigNum) {struct fuel} : outcome BigNum :=
  match fuel with
  | O => OutOfFuel
  | S fuel' =>
    if Bool.eqb (is_negative a) (is_negative b) then Ok (add_same_sign a b)
    else if is_negative a then sub fuel' b (neg a)
    else sub fuel' a (neg b)
  end
with sub (fuel : nat) (a b : BigNum) {struct fuel} : outcome BigNum :=
  match fuel with
  | O => OutOfFuel
  | S fuel' =>
    if negb (Bool.eqb (is_negative a) (is_negative b)) then add fuel' a (neg b)
    else if is_negative a then sub fuel' (neg b) (neg a)
    else
      do c <- lt fuel' a b;
      if c then (do r <- sub fuel' b a; Ok (neg r))
      else Ok (sub_digits a b)
  end.

(** ** Multiplication *)

(** The body of the inner loop of [operator*]. *)
Definition mul_step (a b : list Z) (i j : nat) (r : list Z) : list Z :=
  let r := <[(i + j)%nat := int (get r (i + j) + int (get a i * get b j))]> r in
  let r := <[(i + j + 1)%nat := int (get r (i + j + 1) + Z.quot (get r (i + j)) 10)]> r in
  <[(i + j)%nat := Z.rem (get r (i + j)) 10]> r.

(** [for (j = 0; j < other.digits.size(); j++)] *)
Fixpoint mul_inner (k : nat) (a b : list Z) (i j : nat) (r : list Z) : list Z :=
  match k with
  | O => r
  | S k' => mul_inner k' a b i (S j) (mul_step a b i j r)
  end.

(** [for (i = 0; i < digits.size(); i++)] *)
Fixpoint mul_outer (k : nat) (a b : list Z) (i : nat) (r : list Z) : list Z :=
  match k with
  | O => r
  | S k' => mul_outer k' a b (S i) (mul_inner (List.length b) a b i 0 r)
  end.

Definition mul (a b : BigNum) : BigNum :=
  let r := replicate (List.length (digits a) + List.length (digits b)) 0 in
  let r := mul_outer (List.length (digits a)) (digits a) (digits b) 0 r in
  let ds := removeLeadingZeros r in
  mkBigNum ds
    (if isZero_digits ds then false else xorb (is_negative a) (is_negative b)).

(** ** Division and modulo *)

(** [while (remainder >= div) { remainder = remainder - div; count++; }] *)
Fixpoint div_while (fuel k : nat) (remainder dv : BigNum) (count : Z)
    : outcome (BigNum * Z) :=
  match k with
  | O => OutOfFuel
  | S k' =>
    do c <- ge fuel remainder dv;
    if c then
      (do r <- sub fuel remainder dv; div_while fuel k' r dv (int (count + 1)))
    else Ok (remainder, count)
  end.

(** [for (i = digits.size() - 1; i >= 0; i--)], the long division. *)
Fixpoint div_for (fuel k : nat) (a : list Z) (dv : BigNum)
    (quotient remainder : BigNum) : outcome (BigNum * BigNum) :=
  match k with
  | O => Ok (quotient, remainder)
  | S i =>
    do r10 <- add fuel (mul remainder (BigNum_of_ll 10)) (BigNum_of_ll (get a i));
    do '(r, count) <- div_while fuel fuel r10 dv 0;
    div_for fuel i a dv (mkBigNum (count :: digits quotient) (is_negative quotient)) r
  end.

(** [operator/] *)
Definition div (fuel : nat) (a b : BigNum) : outcome BigNum :=
  if isZero b then Throw DivisionByZero
  else if isZero a then Ok (BigNum_of_ll 0)
  else
    let dividend := mkBigNum (digits a) false in
    let dv := mkBigNum (digits b) false in
    do c <- lt fuel dividend dv;
    if c then Ok (BigNum_of_ll 0)
    else
      do '(quotient, _) <-
        div_for fuel (List.length (digits a)) (digits a) dv
                (BigNum_of_ll 0) (BigNum_of_ll 0);
      let ds := removeLeadingZeros (digits quotient) in
      Ok (mkBigNum ds
            (if isZero_digits ds then false
             else xorb (is_negative a) (is_negative b))).

(** [operator%] *)
Definition mod_ (fuel : nat) (a b : BigNum) : outcome BigNum :=
  if isZero b then Throw DivisionByZero
  else
    do quotient <- div fuel a b;
    do remainder <- sub fuel a (mul quotient b);
    if is_negative remainder
    then add fuel remainder (if is_negative b then neg b else b)
    else Ok remainder.

(** ** Modular arithmetic *)

Definition addMod (fuel : nat) (a b m : BigNum) : outcome BigNum :=
  do s <- add fuel a b; mod_ fuel s m.

Definition mulMod (fuel : nat) (a b m : BigNum) : outcome BigNum :=
  mod_ fuel (mul a b) m.

(** [while (!e.isZero())] of [powMod]. *)
Fixpoint powMod_loop (fuel k : nat) (result base e m : BigNum) : outcome BigNum :=
  match k with
  | O => OutOfFuel
  | S k' =>
    if isZero e then Ok result
    else
      do result' <-
        (if negb (Z.land (get (digits e) 0) 1 =? 0)
         then mulMod fuel result base m else Ok result);
      do e' <- div fuel e (BigNum_of_ll 2);
      do base' <- mulMod fuel base base m;
      powMod_loop fuel k' result' base' e' m
  end.

Definition powMod (fuel : nat) (a e m : BigNum) : outcome BigNum :=
  if isOne m then Ok (BigNum_of_ll 0)
  else
    do base <- mod_ fuel a m;
    powMod_loop fuel fuel (BigNum_of_ll 1) base e m.

(** [extendedGCD]; the reference parameters [x] and [y] are returned with
    the gcd.  [k] bounds the depth of the recursion. *)
Fixpoint extendedGCD_rec (fuel k : nat) (a b : BigNum)
    : outcome (BigNum * BigNum * BigNum) :=
  match k with
  | O => OutOfFuel
  | S k' =>
    if isZero b then Ok (a, BigNum_of_ll 1, BigNum_of_ll 0)
    else
      do r <- mod_ fuel a b;
      do '(gcd, x1, y1) <- extendedGCD_rec fuel k' b r;
      do q <- div fuel a b;
      do y <- sub fuel x1 (mul q y1);
      Ok (gcd, y1, y)
  end.

Definition extendedGCD (fuel : nat) (a b : BigNum) : outcome (BigNum * BigNum * BigNum) :=
  extendedGCD_rec fuel fuel a b.

Definition modInverse (fuel : nat) (a m : BigNum) : outcome BigNum :=
  do r <- mod_ fuel a m;
  do '(gcd, x, _) <- extendedGCD fuel r m;
  if negb (isOne gcd) then Throw NoInverse
  else
    do result <- mod_ fuel x m;
    if is_negative result then add fuel result m else Ok result.

(** ** The rest of the class and its command loop *)

(** [operator!=] *)
Definition ne (a b : BigNum) : bool := negb (eqb a b).

(** [while (!temp.isZero()) { temp = temp / two; bits++; }] of
    [getBitLength]; [bits] is an [int]. *)
Fixpoint getBitLength_loop (fuel k : nat) (temp : BigNum) (bits : Z) : outcome Z :=
  match k with
  | O => OutOfFuel
  | S k' =>
    if isZero temp then Ok bits
    else
      do t <- div fuel temp (BigNum_of_ll 2);
      getBitLength_loop fuel k' t (int (bits + 1))
  end.

Definition getBitLength (fuel : nat) (a : BigNum) : outcome Z :=
  if isZero a then Ok 1
  else getBitLength_loop fuel fuel (mkBigNum (digits a) false) 0.

(** What one round of the command loop of [main] does after it has read
    the operation name. *)
Inductive reply : Type :=
| Printed (s : string)     (* "Result: " and the rendered value; the loop goes on *)
| Reported (e : error)     (* the command's own catch prints the message; the loop goes on *)
| UnknownOperation         (* the help line; the loop goes on *)
| QuitLoop                 (* break: main returns 0 *)
| Aborted (e : error)      (* the catch around the loop prints the message; main returns 1 *)
| Diverged.                (* out of fuel *)

(** A value is printed; an exception goes to the command's own
    [try]/[catch] when it has one ([guarded]), else to the one around the
    loop. *)
Definition reply_of (guarded : bool) (o : outcome BigNum) : reply :=
  match o with
  | Ok r => Printed (toString r)
  | Throw e => if guarded then Reported e else Aborted e
  | OutOfFuel => Diverged
  end.

(** One round of [while (true)] in [main]: [operation] is the name read,
    [x], [y], [z] the operand texts read by [cin >> a] (and [>> b],
    [>> m]) in that order; a command with two operands reads no third. *)
Definition command (fuel : nat) (operation x y z : string) : reply :=
  if String.eqb operation "quit" then QuitLoop
  else if String.eqb operation "+" then
    reply_of false (add fuel (BigNum_of_string x) (BigNum_of_string y))
  else if String.eqb operation "-" then
    reply_of false (sub fuel (BigNum_of_string x) (BigNum_of_string y))
  else if String.eqb operation "*" then
    reply_of false (Ok (mul (BigNum_of_string x) (BigNum_of_string y)))
  else if String.eqb operation "/" then
    reply_of true (div fuel (BigNum_of_string x) (BigNum_of_string y))
  else if String.eqb operation "%" then
    reply_of true (mod_ fuel (BigNum_of_string x) (BigNum_of_string y))
  else if String.eqb operation "mulmod" then
    reply_of false
      (mulMod fuel (BigNum_of_string x) (BigNum_of_string y) (BigNum_of_string z))
  else if String.eqb operation "addmod" then
    reply_of false
      (addMod fuel (BigNum_of_string x) (BigNum_of_string y) (BigNum_of_string z))
  else if String.eqb operation "inverse" then
    reply_of true (modInverse fuel (BigNum_of_string x) (BigNum_of_string y))
  else if String.eqb operation "pow" then
    reply_of false
      (powMod fuel (BigNum_of_string x) (BigNum_of_string y) (BigNum_of_string z))
  else UnknownOperation.

(** The status [main] returns when the round ends the loop. *)
Definition exit_status (r : reply) : option Z :=
  match r with
  | QuitLoop => Some 0
  | Aborted _ => Some 1
  | _ => None
  end.

(** The number of bits of a magnitude: 0 for 0. *)
Definition bit_length (v : Z) : Z := if v =? 0 then 0 else Z.log2 v + 1.

(** ** Values and canonical form *)

(** The magnitude a digit vector stands for. *)
Fixpoint dval (l : list Z) : Z :=
  match l with
  | [] => 0
  | d :: r => d + 10 * dval r
  end.

(** The integer a [BigNum] stands for. *)
Definition value (a : BigNum) : Z :=
  if is_negative a then - dval (digits a) else dval (digits a).

Definition digit_okb (d : Z) : bool := (0 <=? d) && (d <=? 9).

(** On the vector seen from its back: non-empty, and the most significant
    digit is not zero unless it is the only one. *)
Definition msd_okb (r : list Z) : bool :=
  match r with
  | [] => false
  | [_] => true
  | d :: _ => negb (d =? 0)
  end.

(** Canonical form: decimal digits, no leading zero, no negative zero. *)
Definition canonical (a : BigNum) : bool :=
  forallb digit_okb (digits a)
  && msd_okb (rev (digits a))
  && (negb (isZero a) || negb (is_negative a)).

Definition digits_ok (l : list Z) : Prop := Forall (fun d => 0 <= d <= 9) l.

(** Well-formedness as a proposition; [canonical_wf] relates it to
    [canonical]. *)
Record wf (a : BigNum) : Prop := mk_wf {
  wf_digits : digits_ok (digits a);
  wf_msd : msd_okb (rev (digits a)) = true;
  wf_zero : isZero a = true -> is_negative a = false
}.

(** The operation returned a well-formed number standing for [z]. *)
Definition returns (x : outcome BigNum) (z : Z) : Prop :=
  exists r, x = Ok r /\ wf r /\ value r = z.

(** The state of [operator*] before step [(i, j)], for operands of [la]
    and [lb] digits: every cell holds a digit, except that cell [i + j]
    may hold a pending carry, and nothing has been written beyond the
    current row. *)
Definition mul_inv (la lb i j : nat) (r : list Z) : Prop :=
  length r = (la + lb)%nat /\
  (forall k, 0 <= get r k) /\
  (forall k, k <> (i + j)%nat -> get r k <= 9) /\
  get r (i + j) <= (if (j <? lb)%nat then 18 else 9) /\
  (forall k, (i + lb <= k)%nat -> k <> (i + j)%nat -> get r k = 0).

(** The state of [operator*] between rows: every cell holds a digit, and
    row [i] has not been started. *)
Definition row_inv (la lb i : nat) (r : list Z) : Prop :=
  length r = (la + lb)%nat /\
  (forall k, 0 <= get r k <= 9) /\
  (forall k, (i + lb <= k)%nat -> get r k = 0).

(** What [extendedGCD(a, b)] should return: the gcd and coefficients of
    Bezout's identity. *)
Definition egcd_post (a b : BigNum) (o : outcome (BigNum * BigNum * BigNum)) : Prop :=
  exists g x y,
    o = Ok (g, x, y) /\ wf g /\ wf x /\ wf y /\
    value g = Z.gcd (value a) (value b) /\
    value a * value x + value b * value y = value g.

(** The character [toString] writes for a digit. *)
Definition digit_char (d : Z) : ascii := char_of_int (int (d + 48)).

(** The spec's reference for [powMod]: naive repeated multiplication. *)
Fixpoint naive_pow (b : Z) (n : nat) : Z :=
  match n with
  | O => 1
  | S n' => b * naive_pow b n'
  end.

(** [(a / b) * b + (a % b)] *)
Definition division_identity_lhs (fuel : nat) (a b : BigNum) : outcome BigNum :=
  do q <- div fuel a b;
  do r <- mod_ fuel a b;
  add fuel (mul q b) r.

(** * Proofs *)

(** ** Machine integers *)

Lemma int_small z : - 2 ^ 31 <= z < 2 ^ 31 -> int z = z.
Proof.
  intros H. unfold int, wrap.
  change (2 ^ (32 - 1)) with 2147483648 in *. change (2 ^ 32) with 4294967296.
  change (2 ^ 31) with 2147483648 in H.
  rewrite Z.mod_small by lia. lia.
Qed.

Lemma llong_small z : - 2 ^ 63 <= z < 2 ^ 63 -> llong z = z.
Proof.
  intros H. unfold llong, wrap.
  change (2 ^ (64 - 1)) with 9223372036854775808 in *.
  change (2 ^ 64) with 18446744073709551616.
  change (2 ^ 63) with 9223372036854775808 in H.
  rewrite Z.mod_small by lia. lia.
Qed.

(** ** Digit vectors *)

Lemma digits_ok_forallb l : forallb digit_okb l = true <-> digits_ok l.
Proof.
  unfold digits_ok. rewrite forallb_forall, Forall_forall.
  split; intros H d Hd.
  - apply list_elem_of_In, H in Hd. unfold digit_okb in Hd. lia.
  - apply list_elem_of_In, H in Hd. unfold digit_okb. lia.
Qed.

Lemma dval_app l r : dval (l ++ r) = dval l + 10 ^ Z.of_nat (length l) * dval r.
Proof.
  induction l as [|d l IH]; simpl dval; simpl length.
  - change (Z.of_nat 0) with 0. rewrite Z.pow_0_r. lia.
  - rewrite IH, Nat2Z.inj_succ, Z.pow_succ_r by lia. ring.
Qed.

Lemma dval_snoc l d : dval (l ++ [d]) = dval l + 10 ^ Z.of_nat (length l) * d.
Proof. rewrite dval_app. simpl. f_equal. f_equal. lia. Qed.

Lemma dval_bound l : digits_ok l -> 0 <= dval l < 10 ^ Z.of_nat (length l).
Proof.
  induction 1 as [|d l Hd _ IH]; simpl dval; simpl length.
  - change (10 ^ Z.of_nat 0) with 1. lia.
  - rewrite Nat2Z.inj_succ, Z.pow_succ_r by lia. lia.
Qed.

Lemma dval_replicate n : dval (replicate n 0) = 0.
Proof. induction n as [|n IH]; simpl; lia. Qed.

Lemma get_nil i : get [] i = 0.
Proof. unfold get. destruct i; reflexivity. Qed.

Lemma get_ge l i : (length l <= i)%nat -> get l i = 0.
Proof. intros H. unfold get. apply nth_overflow. exact H. Qed.

Lemma get_ok l i : digits_ok l -> 0 <= get l i <= 9.
Proof.
  intros H. revert i.
  induction H as [|d l Hd _ IH]; intros [|i]; unfold get; simpl; try lia.
  apply IH.
Qed.

(** The value of the digits from position [i] up. *)
Lemma dval_drop l i : dval (drop i l) = get l i + 10 * dval (drop (S i) l).
Proof.
  revert i. induction l as [|d l IH]; intros i.
  - rewrite !drop_nil, get_nil. simpl. lia.
  - destruct i as [|i].
    + reflexivity.
    + change (drop (S i) (d :: l)) with (drop i l).
      change (drop (S (S i)) (d :: l)) with (drop (S i) l).
      change (get (d :: l) (S i)) with (get l i). apply IH.
Qed.

Lemma dval_drop_ge l i : (length l <= i)%nat -> dval (drop i l) = 0.
Proof. intros H. rewrite drop_ge by exact H. reflexivity. Qed.

(** The value of the digits below position [i]. *)
Lemma dval_take l i : dval (take (S i) l) = dval (take i l) + 10 ^ Z.of_nat i * get l i.
Proof.
  revert i. induction l as [|d l IH]; intros i.
  - rewrite !take_nil, get_nil. simpl. lia.
  - destruct i as [|i].
    + simpl. unfold get. simpl. lia.
    + change (take (S (S i)) (d :: l)) with (d :: take (S i) l).
      change (take (S i) (d :: l)) with (d :: take i l).
      change (get (d :: l) (S i)) with (get l i).
      simpl dval. rewrite IH, Nat2Z.inj_succ, Z.pow_succ_r by lia. ring.
Qed.

Lemma dval_take_ge l i : (length l <= i)%nat -> dval (take i l) = dval l.
Proof. intros H. rewrite take_ge by exact H. reflexivity. Qed.

(** *** [removeLeadingZeros] *)

Lemma pop_zeros_value r : dval (rev (pop_zeros r)) = dval (rev r).
Proof.
  induction r as [|d r IH]; [reflexivity|].
  destruct r as [|e r]; [reflexivity|].
  change (pop_zeros (d :: e :: r)) with (if d =? 0 then pop_zeros (e :: r) else d :: e :: r).
  destruct (Z.eqb_spec d 0) as [->|]; [|reflexivity].
  rewrite IH. change (rev (0 :: e :: r)) with (rev (e :: r) ++ [0]).
  rewrite dval_snoc. lia.
Qed.

Lemma pop_zeros_msd r : r <> [] -> msd_okb (pop_zeros r) = true.
Proof.
  induction r as [|d r IH]; [congruence|]. intros _.
  destruct r as [|e r]; [reflexivity|].
  change (pop_zeros (d :: e :: r)) with (if d =? 0 then pop_zeros (e :: r) else d :: e :: r).
  destruct (Z.eqb_spec d 0) as [->|Hd].
  - apply IH. congruence.
  - simpl. destruct (Z.eqb_spec d 0); [contradiction|reflexivity].
Qed.

Lemma pop_zeros_ok r : digits_ok r -> digits_ok (pop_zeros r).
Proof.
  induction 1 as [|d r Hd Hr IH]; [constructor|].
  destruct r as [|e r]; [constructor; [exact Hd|constructor]|].
  change (pop_zeros (d :: e :: r)) with (if d =? 0 then pop_zeros (e :: r) else d :: e :: r).
  destruct (d =? 0); [exact IH|constructor; assumption].
Qed.

Lemma pop_zeros_id r : msd_okb r = true -> pop_zeros r = r.
Proof.
  destruct r as [|d [|e r]]; try reflexivity.
  simpl. destruct (d =? 0); [discriminate|reflexivity].
Qed.

Lemma removeLeadingZeros_value ds : dval (removeLeadingZeros ds) = dval ds.
Proof. unfold removeLeadingZeros. rewrite pop_zeros_value, rev_involutive. reflexivity. Qed.

Lemma removeLeadingZeros_ok ds : digits_ok ds -> digits_ok (removeLeadingZeros ds).
Proof.
  intros H. unfold removeLeadingZeros, digits_ok in *.
  apply Forall_rev, pop_zeros_ok, Forall_rev, H.
Qed.

Lemma removeLeadingZeros_msd ds :
  ds <> [] -> msd_okb (rev (removeLeadingZeros ds)) = true.
Proof.
  intros H. unfold removeLeadingZeros. rewrite rev_involutive.
  apply pop_zeros_msd. intros E. apply H.
  rewrite <- (rev_involutive ds), E. reflexivity.
Qed.

Lemma removeLeadingZeros_id ds :
  msd_okb (rev ds) = true -> removeLeadingZeros ds = ds.
Proof.
  intros H. unfold removeLeadingZeros. rewrite pop_zeros_id by exact H.
  apply rev_involutive.
Qed.

(** *** Canonical digit vectors *)

Lemma pow10_pos n : 0 < 10 ^ Z.of_nat n.
Proof. apply Z.pow_pos_nonneg; lia. Qed.

Lemma dval_take_bound l i : digits_ok l -> 0 <= dval (take i l) < 10 ^ Z.of_nat i.
Proof.
  intros H. revert l H. induction i as [|i IH]; intros l H.
  - rewrite take_0. simpl. lia.
  - destruct H as [|d l Hd Hl].
    + rewrite take_nil. simpl. pose proof (pow10_pos (S i)). lia.
    + change (take (S i) (d :: l)) with (d :: take i l). simpl dval.
      specialize (IH l Hl). rewrite Nat2Z.inj_succ, Z.pow_succ_r by lia. lia.
Qed.

(** A canonical vector of two digits or more is at least [10^(n-1)]. *)
Lemma dval_lower l :
  digits_ok l -> msd_okb (rev l) = true -> (2 <= length l)%nat ->
  10 ^ (Z.of_nat (length l) - 1) <= dval l.
Proof.
  intros Hok Hmsd Hlen.
  destruct (rev l) as [|d r] eqn:E; [discriminate|].
  assert (El : l = rev r ++ [d]).
  { rewrite <- (rev_involutive l), E. reflexivity. }
  subst l. clear E. rewrite length_app, length_rev in *. simpl length in *.
  assert (d <> 0) as Hd.
  { destruct r as [|e r]; [simpl in Hlen; lia|].
    simpl in Hmsd. destruct (Z.eqb_spec d 0); [discriminate|assumption]. }
  apply Forall_app in Hok as [Hr Hd']. apply Forall_inv in Hd'.
  rewrite dval_snoc, length_rev.
  replace (Z.of_nat (length r + 1) - 1) with (Z.of_nat (length r)) by lia.
  pose proof (dval_bound _ Hr) as Hb. rewrite length_rev in Hb.
  pose proof (pow10_pos (length r)). cbv beta in Hd'.
  assert (1 <= d) by lia. nia.
Qed.

Lemma msd_okb_nonnil l : msd_okb (rev l) = true -> l <> [].
Proof. intros H ->. discriminate. Qed.

Lemma pow10_le n m : (n <= m)%nat -> 10 ^ Z.of_nat n <= 10 ^ Z.of_nat m.
Proof. intros H. apply Z.pow_le_mono_r; lia. Qed.

(** Shorter canonical vectors stand for smaller magnitudes. *)
Lemma dval_length_lt l1 l2 :
  digits_ok l1 -> digits_ok l2 -> l1 <> [] -> msd_okb (rev l2) = true ->
  (length l1 < length l2)%nat -> dval l1 < dval l2.
Proof.
  intros H1 H2 N1 M2 Hlen.
  pose proof (dval_bound _ H1) as B1.
  assert (Hge : (2 <= length l2)%nat).
  { destruct l1; [congruence|]. simpl in Hlen. lia. }
  pose proof (dval_lower _ H2 M2 Hge) as L2.
  replace (Z.of_nat (length l2) - 1) with (Z.of_nat (length l2 - 1)) in L2 by lia.
  pose proof (pow10_le (length l1) (length l2 - 1) ltac:(lia)). lia.
Qed.

Lemma dval_inj_length l1 l2 :
  digits_ok l1 -> digits_ok l2 -> length l1 = length l2 ->
  dval l1 = dval l2 -> l1 = l2.
Proof.
  intros H1. revert l2. induction H1 as [|d1 l1 Hd1 _ IH]; intros l2 H2 Hlen Hv.
  - destruct l2; [reflexivity|discriminate].
  - destruct H2 as [|d2 l2 Hd2 H2]; [discriminate|].
    simpl in Hlen, Hv. assert (d1 = d2) by lia. subst d2.
    f_equal. apply IH; [exact H2|lia|lia].
Qed.

(** A magnitude has one canonical digit vector. *)
Lemma dval_inj l1 l2 :
  digits_ok l1 -> digits_ok l2 ->
  msd_okb (rev l1) = true -> msd_okb (rev l2) = true ->
  dval l1 = dval l2 -> l1 = l2.
Proof.
  intros H1 H2 M1 M2 Hv.
  destruct (lt_eq_lt_dec (length l1) (length l2)) as [[Hlt|Heq]|Hgt].
  - pose proof (dval_length_lt _ _ H1 H2 (msd_okb_nonnil _ M1) M2 Hlt). lia.
  - apply dval_inj_length; assumption.
  - pose proof (dval_length_lt _ _ H2 H1 (msd_okb_nonnil _ M2) M1 Hgt). lia.
Qed.

Lemma isZero_digits_value l :
  digits_ok l -> msd_okb (rev l) = true ->
  isZero_digits l = (dval l =? 0).
Proof.
  intros Hok Hmsd.
  destruct l as [|d [|e l]].
  - discriminate.
  - simpl. destruct (Z.eqb_spec d 0), (Z.eqb_spec (d + 10 * 0) 0); lia || reflexivity.
  - pose proof (dval_lower _ Hok Hmsd ltac:(simpl; lia)) as L.
    assert (0 < 10 ^ (Z.of_nat (length (d :: e :: l)) - 1)).
    { apply Z.pow_pos_nonneg; simpl length; lia. }
    change (isZero_digits (d :: e :: l)) with false.
    symmetry. apply Z.eqb_neq. lia.
Qed.

(** ** Well-formed numbers *)

Lemma canonical_wf a : canonical a = true <-> wf a.
Proof.
  unfold canonical. rewrite !andb_true_iff, digits_ok_forallb. split.
  - intros [[H1 H2] H3]. split; try assumption.
    intros Hz. rewrite Hz in H3. simpl in H3. destruct (is_negative a); [discriminate|reflexivity].
  - intros [H1 H2 H3]. repeat split; try assumption.
    destruct (isZero a); [rewrite H3 by reflexivity|]; reflexivity.
Qed.

Lemma isZero_value a : wf a -> isZero a = (value a =? 0).
Proof.
  intros [H1 H2 H3]. unfold isZero, value in *.
  rewrite isZero_digits_value by assumption.
  destruct (is_negative a); [|reflexivity].
  destruct (Z.eqb_spec (dval (digits a)) 0), (Z.eqb_spec (- dval (digits a)) 0); lia || reflexivity.
Qed.

(** A well-formed number is determined by its value. *)
Lemma value_inj a b : wf a -> wf b -> value a = value b -> a = b.
Proof.
  intros Ha Hb Hv.
  pose proof (isZero_value a Ha) as Za. pose proof (isZero_value b Hb) as Zb.
  destruct Ha as [A1 A2 A3], Hb as [B1 B2 B3].
  pose proof (dval_bound _ A1). pose proof (dval_bound _ B1).
  destruct a as [da na], b as [db nb]. unfold value, isZero in *. simpl in *.
  assert (Hd : dval da = dval db /\ na = nb).
  { destruct na, nb; try (split; [lia|reflexivity]).
    - assert (dval da = 0) by lia. assert (dval db = 0) by lia.
      rewrite isZero_digits_value in A3 by assumption.
      specialize (A3 ltac:(apply Z.eqb_eq; assumption)). discriminate.
    - assert (dval da = 0) by lia. assert (dval db = 0) by lia.
      rewrite isZero_digits_value in B3 by assumption.
      specialize (B3 ltac:(apply Z.eqb_eq; assumption)). discriminate. }
  destruct Hd as [Hd ->]. f_equal. apply dval_inj; assumption.
Qed.

Lemma wf_mk ds s :
  digits_ok ds -> msd_okb (rev ds) = true -> (dval ds = 0 -> s = false) ->
  wf (mkBigNum ds s).
Proof.
  intros H1 H2 H3. split; simpl; try assumption.
  unfold isZero. simpl. rewrite isZero_digits_value by assumption.
  intros E. apply H3. apply Z.eqb_eq, E.
Qed.

Lemma wf_nonneg_value a : wf a -> is_negative a = (value a <? 0).
Proof.
  intros Ha. pose proof (isZero_value a Ha) as Hz.
  destruct Ha as [H1 H2 H3]. pose proof (dval_bound _ H1).
  unfold value in *. destruct (is_negative a) eqn:E.
  - symmetry. apply Z.ltb_lt.
    destruct (Z.eqb_spec (- dval (digits a)) 0) as [E0|]; [|lia].
    specialize (H3 Hz). discriminate.
  - symmetry. apply Z.ltb_ge. lia.
Qed.

Lemma dval_abs a : wf a -> dval (digits a) = Z.abs (value a).
Proof.
  intros [H1 _ _]. pose proof (dval_bound _ H1).
  unfold value. destruct (is_negative a); lia.
Qed.

(** *** [operator==] and unary minus *)

Lemma eqb_eq a b : eqb a b = true <-> a = b.
Proof.
  unfold eqb, list_eqb. rewrite andb_true_iff, Bool.eqb_true_iff, bool_decide_eq_true.
  destruct a, b; simpl. split; [intros [-> ->]; reflexivity|].
  intros E. injection E as -> ->. split; reflexivity.
Qed.

Lemma eqb_value a b : wf a -> wf b -> eqb a b = (value a =? value b).
Proof.
  intros Ha Hb. destruct (Z.eqb_spec (value a) (value b)) as [E|E].
  - apply eqb_eq, value_inj; assumption.
  - destruct (eqb a b) eqn:Eq; [|reflexivity].
    apply eqb_eq in Eq. subst b. contradiction.
Qed.

Lemma neg_wf a : wf a -> wf (neg a).
Proof.
  intros Ha. unfold neg. destruct (isZero a) eqn:Hz; [exact Ha|].
  destruct Ha as [H1 H2 H3]. split; simpl; try assumption.
  unfold isZero in *. simpl. rewrite Hz. discriminate.
Qed.

Lemma neg_value a : wf a -> value (neg a) = - value a.
Proof.
  intros Ha. unfold neg. rewrite (isZero_value a Ha).
  destruct (Z.eqb_spec (value a) 0) as [E|E]; [lia|].
  unfold value. simpl. destruct (is_negative a); simpl; lia.
Qed.

(** ** Outcomes that are values *)

Lemma returns_Ok r z : wf r -> value r = z -> returns (Ok r) z.
Proof. intros H1 H2. exists r. auto. Qed.

Lemma returns_bind (x : outcome BigNum) z (k : BigNum -> outcome BigNum) z' :
  returns x z ->
  (forall r, wf r -> value r = z -> returns (k r) z') ->
  returns (bind x k) z'.
Proof. intros (r & -> & Hw & Hv) Hk. simpl. apply Hk; assumption. Qed.

(** ** [operator<] *)

Lemma lt_loop_spec a b k :
  digits_ok a -> digits_ok b ->
  lt_loop k a b = (dval (take k a) <? dval (take k b)).
Proof.
  intros Ha Hb. induction k as [|k IH].
  - rewrite !take_0. reflexivity.
  - cbn [lt_loop]. rewrite !dval_take, IH.
    pose proof (dval_take_bound a k Ha). pose proof (dval_take_bound b k Hb).
    pose proof (get_ok a k Ha). pose proof (get_ok b k Hb).
    destruct (Z.eqb_spec (get a k) (get b k)) as [E|E]; simpl.
    + rewrite E.
      destruct (Z.ltb_spec (dval (take k a)) (dval (take k b))),
        (Z.ltb_spec (dval (take k a) + 10 ^ Z.of_nat k * get b k)
                    (dval (take k b) + 10 ^ Z.of_nat k * get b k)); lia || reflexivity.
    + destruct (Z.ltb_spec (get a k) (get b k)),
        (Z.ltb_spec (dval (take k a) + 10 ^ Z.of_nat k * get a k)
                    (dval (take k b) + 10 ^ Z.of_nat k * get b k)); try reflexivity; nia.
Qed.

Lemma lt_S fuel a b :
  lt (S fuel) a b =
  if negb (Bool.eqb (is_negative a) (is_negative b)) then Ok (is_negative a)
  else if is_negative a then lt fuel (neg b) (neg a)
  else if negb (length (digits a) =? length (digits b))%nat
  then Ok (length (digits a) <? length (digits b))%nat
  else Ok (lt_loop (length (digits a)) (digits a) (digits b)).
Proof. reflexivity. Qed.

Lemma lt_nonneg fuel a b :
  wf a -> wf b -> is_negative a = false -> is_negative b = false ->
  lt (S fuel) a b = Ok (value a <? value b).
Proof.
  intros Ha Hb Na Nb. rewrite lt_S, Na, Nb. simpl.
  destruct Ha as [A1 A2 _], Hb as [B1 B2 _]. unfold value. rewrite Na, Nb.
  destruct (Nat.eqb_spec (length (digits a)) (length (digits b))) as [E|E]; simpl.
  - rewrite lt_loop_spec by assumption.
    rewrite (dval_take_ge (digits a)) by lia. rewrite (dval_take_ge (digits b)) by lia.
    reflexivity.
  - f_equal. destruct (Nat.ltb_spec (length (digits a)) (length (digits b))) as [L|L].
    + symmetry. apply Z.ltb_lt.
      apply dval_length_lt; try assumption. apply msd_okb_nonnil, A2.
    + symmetry. apply Z.ltb_ge.
      assert (dval (digits b) < dval (digits a)); [|lia].
      apply dval_length_lt; try assumption; [apply msd_okb_nonnil, B2|lia].
Qed.

Lemma neg_nonneg a : wf a -> is_negative a = true -> is_negative (neg a) = false.
Proof.
  intros Ha Na. unfold neg. destruct (isZero a) eqn:E.
  - rewrite (wf_zero a Ha E) in Na. discriminate.
  - simpl. rewrite Na. reflexivity.
Qed.

(** Two rounds of fuel are enough to compare well-formed numbers. *)
Lemma lt_spec fuel a b :
  wf a -> wf b -> (2 <= fuel)%nat -> lt fuel a b = Ok (value a <? value b).
Proof.
  intros Ha Hb Hf. destruct fuel as [|[|fuel]]; try lia.
  destruct (is_negative a) eqn:Na, (is_negative b) eqn:Nb.
  - rewrite lt_S, Na, Nb. cbn [Bool.eqb negb].
    rewrite lt_nonneg; auto using neg_wf, neg_nonneg.
    rewrite !neg_value by assumption. f_equal.
    destruct (Z.ltb_spec (- value b) (- value a)), (Z.ltb_spec (value a) (value b)); lia || reflexivity.
  - rewrite lt_S, Na, Nb. simpl. f_equal.
    rewrite (wf_nonneg_value a Ha) in Na. rewrite (wf_nonneg_value b Hb) in Nb.
    symmetry. apply Z.ltb_lt. apply Z.ltb_lt in Na. apply Z.ltb_ge in Nb. lia.
  - rewrite lt_S, Na, Nb. simpl. f_equal.
    rewrite (wf_nonneg_value a Ha) in Na. rewrite (wf_nonneg_value b Hb) in Nb.
    symmetry. apply Z.ltb_ge. apply Z.ltb_ge in Na. apply Z.ltb_lt in Nb. lia.
  - apply lt_nonneg; assumption.
Qed.

Lemma ge_spec fuel a b :
  wf a -> wf b -> (2 <= fuel)%nat -> ge fuel a b = Ok (value b <=? value a).
Proof.
  intros Ha Hb Hf. unfold ge. rewrite lt_spec by assumption. simpl. f_equal.
  destruct (Z.ltb_spec (value a) (value b)), (Z.leb_spec (value b) (value a)); lia || reflexivity.
Qed.

(** ** The carry loop *)

Lemma guard_get l i s :
  digits_ok l -> - 100 <= s <= 100 ->
  (if (i <? length l)%nat then int (s + get l i) else s) = s + get l i.
Proof.
  intros Hl Hs. pose proof (get_ok l i Hl).
  destruct (Nat.ltb_spec i (length l)) as [L|L].
  - apply int_small. lia.
  - rewrite get_ge by exact L. lia.
Qed.

Lemma guard_get_sub l i s :
  digits_ok l -> - 100 <= s <= 100 ->
  (if (i <? length l)%nat then int (s - get l i) else s) = s - get l i.
Proof.
  intros Hl Hs. pose proof (get_ok l i Hl).
  destruct (Nat.ltb_spec i (length l)) as [L|L].
  - apply int_small. lia.
  - rewrite get_ge by exact L. lia.
Qed.

Lemma digits_ok_snoc l d : digits_ok l -> 0 <= d <= 9 -> digits_ok (l ++ [d]).
Proof. intros Hl Hd. apply Forall_app. split; [exact Hl|]. constructor; [exact Hd|constructor]. Qed.

Section ADD_LOOP.
Variables a b : list Z.
Hypothesis Ha : digits_ok a.
Hypothesis Hb : digits_ok b.
Let maxSize := Nat.max (length a) (length b).

Lemma add_loop_spec k : forall i carry res,
  0 <= carry <= 1 -> length res = i -> digits_ok res ->
  ((if (i <? maxSize)%nat then maxSize - i + 2 else 1 + Z.to_nat carry) <= k)%nat ->
  let r := add_loop k a b maxSize i carry res in
  digits_ok r /\ (maxSize <= length r)%nat /\
  dval r = dval res + 10 ^ Z.of_nat i * (carry + dval (drop i a) + dval (drop i b)).
Proof.
  induction k as [|k IH]; intros i carry res Hc Hlen Hres Hk r.
  { destruct (i <? maxSize)%nat; lia. }
  subst r. cbn [add_loop].
  destruct (Nat.ltb_spec i maxSize) as [L|L]; cbn [orb].
  - rewrite (guard_get a) by (assumption || lia).
    pose proof (get_ok a i Ha) as Ga. pose proof (get_ok b i Hb) as Gb.
    rewrite (guard_get b) by (assumption || lia).
    set (s := carry + get a i + get b i).
    assert (Hs : 0 <= s <= 19) by (subst s; lia).
    rewrite Z.quot_div_nonneg, Z.rem_mod_nonneg by lia.
    pose proof (Z.div_mod s 10 ltac:(lia)) as Hdm.
    pose proof (Z.mod_pos_bound s 10 ltac:(lia)) as Hm.
    assert (Hq : 0 <= s / 10 <= 1) by lia.
    destruct (IH (S i) (s / 10) (res ++ [s mod 10])) as (R1 & R2 & R3).
    + exact Hq.
    + rewrite length_app. simpl. lia.
    + apply digits_ok_snoc; [assumption|lia].
    + destruct (Nat.ltb_spec (S i) maxSize); lia.
    + split; [exact R1|]. split; [exact R2|].
      rewrite R3, dval_snoc, Hlen, (dval_drop a i), (dval_drop b i).
      rewrite Nat2Z.inj_succ, Z.pow_succ_r by lia. subst s. nia.
  - assert (La : (length a <= i)%nat) by lia.
    assert (Lb : (length b <= i)%nat) by lia.
    rewrite (dval_drop_ge a) by exact La. rewrite (dval_drop_ge b) by exact Lb.
    destruct (Z.eqb_spec carry 0) as [->|Hn]; cbn [negb].
    + split; [exact Hres|]. split; [lia|]. lia.
    + assert (carry = 1) by lia. subst carry.
      pose proof (get_ok a i Ha) as Ga.
      rewrite (guard_get a) by (assumption || lia).
      rewrite (guard_get b) by (assumption || lia).
      rewrite !get_ge by assumption.
      change (Z.quot (1 + 0 + 0) 10) with 0. change (Z.rem (1 + 0 + 0) 10) with 1.
      destruct (IH (S i) 0 (res ++ [1])) as (R1 & R2 & R3).
      * lia.
      * rewrite length_app. simpl. lia.
      * apply digits_ok_snoc; [assumption|lia].
      * destruct (Nat.ltb_spec (S i) maxSize); simpl in *; lia.
      * split; [exact R1|]. split; [exact R2|].
        rewrite R3, dval_snoc, Hlen.
        rewrite (dval_drop_ge a) by lia. rewrite (dval_drop_ge b) by lia. lia.
Qed.
End ADD_LOOP.

Lemma add_same_sign_spec a b :
  wf a -> wf b -> is_negative a = is_negative b ->
  wf (add_same_sign a b) /\ value (add_same_sign a b) = value a + value b.
Proof.
  intros Ha Hb Hs. destruct Ha as [A1 A2 A3], Hb as [B1 B2 B3].
  unfold add_same_sign.
  set (m := Nat.max (length (digits a)) (length (digits b))).
  assert (Hk : ((if (0 <? m)%nat then m - 0 + 2 else 1 + Z.to_nat 0) <= m + 11)%nat).
  { destruct (0 <? m)%nat; lia. }
  pose proof (add_loop_spec (digits a) (digits b) A1 B1 (m + 11) 0 0 []
                ltac:(lia) eq_refl ltac:(constructor) Hk) as (R1 & R2 & R3).
  fold m in R1, R2, R3. set (r := add_loop (m + 11) (digits a) (digits b) m 0 0 []) in *.
  cbn [dval] in R3. rewrite !drop_0 in R3.
  assert (Hne : r <> []).
  { apply msd_okb_nonnil in A2. destruct (digits a); [congruence|].
    destruct r; [simpl in *; lia|congruence]. }
  pose proof (removeLeadingZeros_value r) as V.
  pose proof (removeLeadingZeros_ok r R1) as O.
  pose proof (removeLeadingZeros_msd r Hne) as M.
  split.
  - apply wf_mk; try assumption.
    rewrite isZero_digits_value by assumption.
    intros ->. reflexivity.
  - unfold value at 1. cbn [digits is_negative].
    rewrite isZero_digits_value by assumption. rewrite V.
    unfold value. rewrite <- Hs.
    pose proof (dval_bound _ A1). pose proof (dval_bound _ B1).
    destruct (Z.eqb_spec (dval r) 0), (is_negative a); lia.
Qed.

(** ** The borrow loop *)

Section SUB_LOOP.
Variables a b : list Z.
Hypothesis Ha : digits_ok a.
Hypothesis Hb : digits_ok b.
Hypothesis Hlen : (length b <= length a)%nat.

Lemma sub_loop_spec k : forall i borrow res,
  0 <= borrow <= 1 -> length res = i -> digits_ok res ->
  (k + i = length a)%nat ->
  let r := sub_loop k a b i borrow res in
  digits_ok r /\ length r = length a /\
  exists bout, 0 <= bout <= 1 /\
    dval r - 10 ^ Z.of_nat (length a) * bout =
    dval res + 10 ^ Z.of_nat i * (dval (drop i a) - dval (drop i b) - borrow).
Proof.
  induction k as [|k IH]; intros i borrow res Hbw Hres Hok Hk r; subst r.
  - cbn [sub_loop]. split; [exact Hok|]. split; [lia|].
    exists borrow. split; [exact Hbw|].
    rewrite (dval_drop_ge a), (dval_drop_ge b) by lia.
    replace (length a) with i by lia. ring.
  - cbn [sub_loop].
    pose proof (get_ok a i Ha) as Ga. pose proof (get_ok b i Hb) as Gb.
    rewrite (int_small (get a i - borrow)) by lia.
    rewrite (guard_get_sub b) by (assumption || lia).
    set (d := get a i - borrow - get b i).
    assert (Hd : - 10 <= d <= 9) by (subst d; lia).
    rewrite (dval_drop a i), (dval_drop b i).
    destruct (Z.ltb_spec d 0) as [L|L].
    + rewrite (int_small (d + 10)) by lia.
      destruct (IH (S i) 1 (res ++ [d + 10])) as (R1 & R2 & bout & R3 & R4).
      * lia.
      * rewrite length_app. simpl. lia.
      * apply digits_ok_snoc; [assumption|lia].
      * lia.
      * split; [exact R1|]. split; [exact R2|]. exists bout. split; [exact R3|].
        rewrite R4, dval_snoc, Hres, Nat2Z.inj_succ, Z.pow_succ_r by lia.
        subst d. ring.
    + destruct (IH (S i) 0 (res ++ [d])) as (R1 & R2 & bout & R3 & R4).
      * lia.
      * rewrite length_app. simpl. lia.
      * apply digits_ok_snoc; [assumption|lia].
      * lia.
      * split; [exact R1|]. split; [exact R2|]. exists bout. split; [exact R3|].
        rewrite R4, dval_snoc, Hres, Nat2Z.inj_succ, Z.pow_succ_r by lia.
        subst d. ring.
Qed.
End SUB_LOOP.

Lemma sub_digits_spec a b :
  wf a -> wf b -> is_negative a = false -> is_negative b = false ->
  value b <= value a ->
  wf (sub_digits a b) /\ value (sub_digits a b) = value a - value b.
Proof.
  intros Ha Hb Na Nb Hle. destruct Ha as [A1 A2 A3], Hb as [B1 B2 B3].
  unfold value in *. rewrite Na, Nb in *.
  assert (Hlen : (length (digits b) <= length (digits a))%nat).
  { destruct (Nat.le_gt_cases (length (digits b)) (length (digits a))) as [L|L]; [exact L|].
    pose proof (dval_length_lt _ _ A1 B1 (msd_okb_nonnil _ A2) B2 L). lia. }
  pose proof (sub_loop_spec (digits a) (digits b) A1 B1 Hlen (length (digits a)) 0 0 []
                ltac:(lia) eq_refl ltac:(constructor) ltac:(lia))
    as (R1 & R2 & bout & R3 & R4).
  unfold sub_digits.
  set (r := sub_loop (length (digits a)) (digits a) (digits b) 0 0 []) in *.
  cbn [dval] in R4. rewrite !drop_0 in R4.
  pose proof (dval_bound _ R1) as Br. rewrite R2 in Br.
  pose proof (dval_bound _ A1) as Ba. pose proof (dval_bound _ B1) as Bb.
  assert (bout = 0) by nia. subst bout.
  assert (Hne : r <> []).
  { apply msd_okb_nonnil in A2. destruct (digits a); [congruence|].
    destruct r; [discriminate|congruence]. }
  split.
  - apply wf_mk; [apply removeLeadingZeros_ok, R1|apply removeLeadingZeros_msd, Hne|reflexivity].
  - cbn [digits is_negative]. rewrite removeLeadingZeros_value. lia.
Qed.

(** ** [operator+] and [operator-] *)

Lemma add_S fuel a b :
  add (S fuel) a b =
  if Bool.eqb (is_negative a) (is_negative b) then Ok (add_same_sign a b)
  else if is_negative a then sub fuel b (neg a)
  else sub fuel a (neg b).
Proof. reflexivity. Qed.

Lemma sub_S fuel a b :
  sub (S fuel) a b =
  if negb (Bool.eqb (is_negative a) (is_negative b)) then add fuel a (neg b)
  else if is_negative a then sub fuel (neg b) (neg a)
  else
    do c <- lt fuel a b;
    if c then (do r <- sub fuel b a; Ok (neg r))
    else Ok (sub_digits a b).
Proof. reflexivity. Qed.

Lemma add_same fuel a b :
  wf a -> wf b -> is_negative a = is_negative b ->
  returns (add (S fuel) a b) (value a + value b).
Proof.
  intros Ha Hb Hs. rewrite add_S, Hs, Bool.eqb_reflx.
  destruct (add_same_sign_spec a b Ha Hb Hs). apply returns_Ok; assumption.
Qed.

(** Both operands non-negative, minuend not smaller. *)
Lemma sub_nonneg_ge fuel a b :
  wf a -> wf b -> is_negative a = false -> is_negative b = false ->
  value b <= value a ->
  returns (sub (S (S fuel)) a b) (value a - value b).
Proof.
  intros Ha Hb Na Nb Hle. rewrite sub_S, Na, Nb. cbn [Bool.eqb negb].
  rewrite lt_nonneg by assumption.
  destruct (Z.ltb_spec (value a) (value b)); [lia|]. cbn [bind].
  destruct (sub_digits_spec a b Ha Hb Na Nb Hle). apply returns_Ok; assumption.
Qed.

Lemma sub_nonneg fuel a b :
  wf a -> wf b -> is_negative a = false -> is_negative b = false ->
  returns (sub (S (S (S fuel))) a b) (value a - value b).
Proof.
  intros Ha Hb Na Nb.
  destruct (Z.le_gt_cases (value b) (value a)) as [Hle|Hgt].
  - apply sub_nonneg_ge; assumption.
  - rewrite sub_S, Na, Nb. cbn [Bool.eqb negb].
    rewrite lt_nonneg by assumption.
    destruct (Z.ltb_spec (value a) (value b)); [|lia]. cbn [bind].
    eapply returns_bind.
    + apply sub_nonneg_ge; try assumption. lia.
    + intros r Hr Hv. apply returns_Ok; [apply neg_wf, Hr|].
      rewrite neg_value by exact Hr. lia.
Qed.

Lemma add_diff fuel a b :
  wf a -> wf b -> is_negative a <> is_negative b ->
  returns (add (S (S (S (S fuel)))) a b) (value a + value b).
Proof.
  intros Ha Hb Hs. rewrite add_S.
  destruct (is_negative a) eqn:Na, (is_negative b) eqn:Nb; try congruence; cbn [Bool.eqb].
  - replace (value b + value a) with (value b - value (neg a))
      by (rewrite neg_value by assumption; lia).
    replace (value a + value b) with (value b - value (neg a))
      by (rewrite neg_value by assumption; lia).
    apply sub_nonneg; auto using neg_wf, neg_nonneg.
  - replace (value a + value b) with (value a - value (neg b))
      by (rewrite neg_value by assumption; lia).
    apply sub_nonneg; auto using neg_wf, neg_nonneg.
Qed.

(** Four rounds of fuel are enough to add well-formed numbers. *)
Lemma add_spec fuel a b :
  wf a -> wf b -> (4 <= fuel)%nat -> returns (add fuel a b) (value a + value b).
Proof.
  intros Ha Hb Hf.
  destruct (bool_decide (is_negative a = is_negative b)) eqn:E.
  - apply bool_decide_eq_true in E.
    destruct fuel as [|fuel]; [lia|]. apply add_same; assumption.
  - apply bool_decide_eq_false in E.
    do 4 (destruct fuel as [|fuel]; [lia|]). apply add_diff; assumption.
Qed.

(** Five rounds of fuel are enough to subtract well-formed numbers. *)
Lemma sub_spec fuel a b :
  wf a -> wf b -> (5 <= fuel)%nat -> returns (sub fuel a b) (value a - value b).
Proof.
  intros Ha Hb Hf.
  do 5 (destruct fuel as [|fuel]; [lia|]). clear Hf.
  destruct (is_negative a) eqn:Na, (is_negative b) eqn:Nb.
  - rewrite sub_S, Na, Nb. cbn [Bool.eqb negb].
    replace (value a - value b) with (value (neg b) - value (neg a))
      by (rewrite !neg_value by assumption; lia).
    apply sub_nonneg; auto using neg_wf, neg_nonneg.
  - rewrite sub_S, Na, Nb. cbn [Bool.eqb negb].
    replace (value a - value b) with (value a + value (neg b))
      by (rewrite !neg_value by assumption; lia).
    apply add_spec; auto using neg_wf. lia.
  - rewrite sub_S, Na, Nb. cbn [Bool.eqb negb].
    replace (value a - value b) with (value a + value (neg b))
      by (rewrite !neg_value by assumption; lia).
    apply add_spec; auto using neg_wf. lia.
  - apply sub_nonneg; assumption.
Qed.

(** ** [operator*] *)

Lemma get_insert_eq l i v : (i < length l)%nat -> get (<[i:=v]> l) i = v.
Proof.
  intros H. unfold get. rewrite nth_lookup, list_lookup_insert_eq by exact H. reflexivity.
Qed.

Lemma get_insert_ne l i k v : i <> k -> get (<[i:=v]> l) k = get l k.
Proof.
  intros H. unfold get. rewrite !nth_lookup, list_lookup_insert_ne by exact H. reflexivity.
Qed.

Lemma dval_insert l i v :
  (i < length l)%nat -> dval (<[i:=v]> l) = dval l + 10 ^ Z.of_nat i * (v - get l i).
Proof.
  revert i. induction l as [|d l IH]; intros i H; [simpl in H; lia|].
  destruct i as [|i].
  - unfold get. simpl. lia.
  - change (<[S i:=v]> (d :: l)) with (d :: <[i:=v]> l).
    change (get (d :: l) (S i)) with (get l i).
    simpl dval. rewrite IH by (simpl in H; lia).
    rewrite Nat2Z.inj_succ, Z.pow_succ_r by lia. ring.
Qed.

Lemma get_replicate n k : get (replicate n 0) k = 0.
Proof.
  unfold get. rewrite nth_lookup.
  destruct (replicate n 0 !! k) as [x|] eqn:E; [|reflexivity].
  apply lookup_replicate in E as [-> _]. reflexivity.
Qed.

Lemma digits_ok_get l : (forall k, 0 <= get l k <= 9) -> digits_ok l.
Proof.
  induction l as [|d l IH]; intros H; [constructor|].
  constructor.
  - apply (H 0%nat).
  - apply IH. intros k. apply (H (S k)).
Qed.

Section MUL.
Variables a b : list Z.
Hypothesis Ha : digits_ok a.
Hypothesis Hb : digits_ok b.
Local Abbreviation la := (length a).
Local Abbreviation lb := (length b).
Local Abbreviation mul_inv := (mul_inv la lb).
Local Abbreviation row_inv := (row_inv la lb).

Lemma mul_step_spec i j r :
  (i < la)%nat -> (j < lb)%nat -> mul_inv i j r ->
  mul_inv i (S j) (mul_step a b i j r) /\
  dval (mul_step a b i j r) = dval r + 10 ^ Z.of_nat (i + j) * (get a i * get b j).
Proof.
  intros Hi Hj (L & Pos & Dig & Cur & Zero).
  pose proof (get_ok a i Ha) as Ga. pose proof (get_ok b j Hb) as Gb.
  assert (Hc : get r (i + j) <= 18).
  { destruct (j <? lb)%nat; lia. }
  pose proof (Pos (i + j)%nat) as P0. pose proof (Pos (i + j + 1)%nat) as P1.
  pose proof (Dig (i + j + 1)%nat ltac:(lia)) as D1.
  unfold mul_step.
  set (p := (i + j)%nat) in *.
  assert (Hab : 0 <= get a i * get b j <= 81) by nia.
  rewrite (int_small (get a i * get b j)) by lia.
  set (s := get r p + get a i * get b j).
  rewrite (int_small s) by (subst s; lia).
  assert (Hs : 0 <= s <= 99) by (subst s; lia).
  set (r1 := <[p:=s]> r).
  assert (L1 : length r1 = (la + lb)%nat) by (subst r1; rewrite length_insert; exact L).
  assert (G1 : get r1 p = s) by (subst r1; apply get_insert_eq; lia).
  assert (G1' : get r1 (p + 1) = get r (p + 1)) by (subst r1; apply get_insert_ne; lia).
  rewrite G1, G1'.
  rewrite Z.quot_div_nonneg by lia.
  pose proof (Z.div_mod s 10 ltac:(lia)) as Hdm.
  pose proof (Z.mod_pos_bound s 10 ltac:(lia)) as Hm.
  assert (Hq : 0 <= s / 10 <= 9) by lia.
  rewrite (int_small (get r (p + 1) + s / 10)) by lia.
  set (r2 := <[(p + 1)%nat:=get r (p + 1) + s / 10]> r1).
  assert (L2 : length r2 = (la + lb)%nat) by (subst r2; rewrite length_insert; exact L1).
  assert (G2 : get r2 p = s).
  { subst r2. rewrite get_insert_ne by lia. exact G1. }
  rewrite G2, Z.rem_mod_nonneg by lia.
  set (r3 := <[p:=s mod 10]> r2).
  assert (G3 : forall k, get r3 k =
                if decide (k = p) then s mod 10
                else if decide (k = (p + 1)%nat) then get r (p + 1) + s / 10
                else get r k).
  { intros k. subst r3. destruct (decide (k = p)) as [->|N].
    - apply get_insert_eq. lia.
    - rewrite get_insert_ne by congruence. subst r2.
      destruct (decide (k = (p + 1)%nat)) as [->|N'].
      + apply get_insert_eq. lia.
      + rewrite get_insert_ne by congruence. subst r1.
        apply get_insert_ne. congruence. }
  split.
  - unfold mul_inv. replace (i + S j)%nat with (p + 1)%nat by lia.
    split; [subst r3; rewrite length_insert; exact L2|].
    split; [|split; [|split]].
    + intros k. rewrite G3. repeat case_decide; try lia. apply Pos.
    + intros k Hk. rewrite G3. repeat case_decide; try lia. apply Dig. assumption.
    + rewrite G3. repeat case_decide; try lia.
      destruct (Nat.ltb_spec (S j) lb) as [Lj|Lj]; [lia|].
      rewrite (Zero (p + 1)%nat) by lia. lia.
    + intros k Hk1 Hk2. rewrite G3. repeat case_decide; try lia.
      apply Zero; lia.
  - subst r3. rewrite dval_insert by lia. rewrite G2.
    subst r2. rewrite dval_insert by lia. rewrite G1'.
    subst r1. rewrite dval_insert by lia.
    replace (Z.of_nat (p + 1)) with (Z.succ (Z.of_nat p)) by lia.
    rewrite Z.pow_succ_r by lia. subst s. nia.
Qed.

Lemma mul_inner_spec i k : forall j r,
  (i < la)%nat -> (j + k = lb)%nat -> mul_inv i j r ->
  let r' := mul_inner k a b i j r in
  mul_inv i lb r' /\
  dval r' = dval r + 10 ^ Z.of_nat (i + j) * (get a i * dval (drop j b)).
Proof.
  induction k as [|k IH]; intros j r Hi Hjk Hinv r'; subst r'.
  - cbn [mul_inner]. assert (j = lb) by lia. subst j. split; [exact Hinv|].
    rewrite dval_drop_ge by lia. lia.
  - cbn [mul_inner].
    destruct (mul_step_spec i j r Hi ltac:(lia) Hinv) as [I1 V1].
    destruct (IH (S j) (mul_step a b i j r) Hi ltac:(lia) I1) as [I2 V2].
    split; [exact I2|]. rewrite V2, V1, (dval_drop b j).
    replace (Z.of_nat (i + S j)) with (Z.succ (Z.of_nat (i + j))) by lia.
    rewrite Z.pow_succ_r by lia. ring.
Qed.

Lemma row_inv_start i r : row_inv i r -> mul_inv i 0 r.
Proof.
  intros (L & Dig & Zero).
  split; [exact L|]. split; [intros k; apply Dig|]. split; [intros k _; apply Dig|].
  split.
  - specialize (Dig (i + 0)%nat). destruct (0 <? lb)%nat; lia.
  - intros k Hk _. apply Zero, Hk.
Qed.

Lemma row_inv_next i r : mul_inv i lb r -> row_inv (S i) r.
Proof.
  intros (L & Pos & Dig & Cur & Zero).
  rewrite Nat.ltb_irrefl in Cur.
  split; [exact L|]. split.
  - intros k. split; [apply Pos|].
    destruct (decide (k = (i + lb)%nat)) as [->|N]; [exact Cur|apply Dig, N].
  - intros k Hk. apply Zero; lia.
Qed.

Lemma mul_outer_spec k : forall i r,
  (i + k = la)%nat -> row_inv i r ->
  let r' := mul_outer k a b i r in
  row_inv la r' /\
  dval r' = dval r + 10 ^ Z.of_nat i * (dval (drop i a) * dval b).
Proof.
  induction k as [|k IH]; intros i r Hik Hinv r'; subst r'.
  - cbn [mul_outer]. assert (i = la) by lia. subst i. split; [exact Hinv|].
    rewrite dval_drop_ge by lia. lia.
  - cbn [mul_outer].
    destruct (mul_inner_spec i lb 0 r ltac:(lia) ltac:(lia) (row_inv_start _ _ Hinv))
      as [I1 V1].
    apply row_inv_next in I1.
    destruct (IH (S i) (mul_inner lb a b i 0 r) ltac:(lia) I1) as [I2 V2].
    split; [exact I2|]. rewrite V2, V1, (dval_drop a i), drop_0.
    rewrite Nat.add_0_r, Nat2Z.inj_succ, Z.pow_succ_r by lia. ring.
Qed.

Lemma mul_digits_spec :
  let r := mul_outer la a b 0 (replicate (la + lb) 0) in
  digits_ok r /\ length r = (la + lb)%nat /\ dval r = dval a * dval b.
Proof.
  intros r.
  assert (I0 : row_inv 0 (replicate (la + lb) 0)).
  { split; [apply length_replicate|].
    split; [intros k; rewrite get_replicate; lia|].
    intros k _. apply get_replicate. }
  destruct (mul_outer_spec la 0 _ ltac:(lia) I0) as [(L & Dig & Zero) V].
  split; [|split; [exact L|]].
  - apply digits_ok_get, Dig.
  - subst r. rewrite V, dval_replicate, drop_0. change (10 ^ Z.of_nat 0) with 1. lia.
Qed.
End MUL.

Lemma mul_spec a b :
  wf a -> wf b -> wf (mul a b) /\ value (mul a b) = value a * value b.
Proof.
  intros [A1 A2 A3] [B1 B2 B3].
  destruct (mul_digits_spec (digits a) (digits b) A1 B1) as (R1 & R2 & R3).
  unfold mul.
  set (r := mul_outer (length (digits a)) (digits a) (digits b) 0
              (replicate (length (digits a) + length (digits b)) 0)) in *.
  assert (Hne : r <> []).
  { apply msd_okb_nonnil in A2. destruct (digits a); [congruence|].
    destruct r; [discriminate|congruence]. }
  pose proof (removeLeadingZeros_value r) as V.
  pose proof (removeLeadingZeros_ok r R1) as O.
  pose proof (removeLeadingZeros_msd r Hne) as M.
  split.
  - apply wf_mk; try assumption.
    rewrite isZero_digits_value by assumption. intros ->. reflexivity.
  - unfold value at 1. cbn [digits is_negative].
    rewrite isZero_digits_value by assumption. rewrite V, R3.
    unfold value. destruct (Z.eqb_spec (dval (digits a) * dval (digits b)) 0) as [E|E].
    + destruct (is_negative a), (is_negative b); lia.
    + destruct (is_negative a), (is_negative b); cbn [xorb]; lia.
Qed.

(** ** The constructor from [long long] *)

Lemma push_digits_spec k : forall num ds,
  0 < num < 2 ^ Z.of_nat k -> num < 2 ^ 63 -> digits_ok ds ->
  let r := push_digits k num ds in
  digits_ok r /\ msd_okb (rev r) = true /\
  dval r = dval ds + 10 ^ Z.of_nat (length ds) * num.
Proof.
  induction k as [|k IH]; intros num ds Hn Hmax Hds r; subst r.
  { change (2 ^ Z.of_nat 0) with 1 in Hn. lia. }
  cbn [push_digits]. destruct (Z.ltb_spec 0 num) as [_|]; [|lia].
  rewrite Nat2Z.inj_succ, Z.pow_succ_r in Hn by lia.
  rewrite Z.quot_div_nonneg, Z.rem_mod_nonneg by lia.
  pose proof (Z.div_mod num 10 ltac:(lia)) as Hdm.
  pose proof (Z.mod_pos_bound num 10 ltac:(lia)) as Hm.
  change (2 ^ 63) with 9223372036854775808 in Hmax.
  rewrite (int_small (num mod 10)) by lia.
  rewrite (llong_small (num / 10))
    by (change (2 ^ 63) with 9223372036854775808; lia).
  assert (Hds' : digits_ok (ds ++ [num mod 10])) by (apply digits_ok_snoc; [assumption|lia]).
  destruct (Z.eq_dec (num / 10) 0) as [E|E].
  - rewrite E.
    assert (P0 : push_digits k 0 (ds ++ [num mod 10]) = ds ++ [num mod 10])
      by (destruct k; reflexivity).
    rewrite P0. split; [exact Hds'|]. split.
    + rewrite rev_app_distr. cbn [rev app].
      destruct (rev ds); [reflexivity|]. cbn [msd_okb].
      destruct (Z.eqb_spec (num mod 10) 0); [lia|reflexivity].
    + rewrite dval_snoc. f_equal. f_equal. lia.
  - destruct (IH (num / 10) (ds ++ [num mod 10])) as (R1 & R2 & R3);
      [lia|change (2 ^ 63) with 9223372036854775808; lia|exact Hds'|].
    split; [exact R1|]. split; [exact R2|].
    rewrite R3, dval_snoc, length_app. cbn [length].
    replace (Z.of_nat (length ds + 1)) with (Z.succ (Z.of_nat (length ds))) by lia.
    rewrite Z.pow_succ_r by lia. nia.
Qed.

(** More rounds than the value has bits change nothing. *)
Lemma push_digits_fuel k : forall num ds m,
  0 <= num < 2 ^ Z.of_nat k -> num < 2 ^ 63 ->
  push_digits (k + m) num ds = push_digits k num ds.
Proof.
  induction k as [|k IH]; intros num ds m Hn Hmax.
  - change (2 ^ Z.of_nat 0) with 1 in Hn. assert (num = 0) by lia. subst num.
    destruct m; reflexivity.
  - cbn [push_digits Nat.add]. destruct (Z.ltb_spec 0 num) as [Hp|]; [|reflexivity].
    rewrite Nat2Z.inj_succ, Z.pow_succ_r in Hn by lia.
    change (2 ^ 63) with 9223372036854775808 in Hmax.
    rewrite Z.quot_div_nonneg by lia.
    pose proof (Z.div_mod num 10 ltac:(lia)) as Hdm.
    pose proof (Z.mod_pos_bound num 10 ltac:(lia)) as Hm.
    rewrite (llong_small (num / 10))
      by (change (2 ^ 63) with 9223372036854775808; lia).
    apply IH; [lia|change (2 ^ 63) with 9223372036854775808; lia].
Qed.

(** Every [long long] but the most negative one is converted to the
    well-formed number of the same value. *)
Lemma BigNum_of_ll_spec num :
  LLONG_MIN < num <= LLONG_MAX ->
  wf (BigNum_of_ll num) /\ value (BigNum_of_ll num) = num.
Proof.
  unfold LLONG_MIN, LLONG_MAX. change (2 ^ 63) with 9223372036854775808.
  intros Hr. unfold BigNum_of_ll.
  set (m := if num <? 0 then llong (- num) else num).
  assert (Hm : m = Z.abs num).
  { subst m. destruct (Z.ltb_spec num 0).
    - rewrite llong_small by (change (2 ^ 63) with 9223372036854775808; lia). lia.
    - lia. }
  destruct (Z.eqb_spec m 0) as [E|E].
  - split; [apply wf_mk; try reflexivity; repeat constructor; lia|].
    unfold value. simpl. lia.
  - destruct (push_digits_spec 64 m []) as (R1 & R2 & R3).
    + change (2 ^ Z.of_nat 64) with 18446744073709551616. lia.
    + change (2 ^ 63) with 9223372036854775808. lia.
    + constructor.
    + cbn [dval length] in R3. change (10 ^ Z.of_nat 0) with 1 in R3.
      split.
      * apply wf_mk; try assumption. lia.
      * unfold value. cbn [digits is_negative]. rewrite R3.
        destruct (Z.ltb_spec num 0); lia.
Qed.

Lemma BigNum_of_ll_returns num :
  LLONG_MIN < num <= LLONG_MAX -> returns (Ok (BigNum_of_ll num)) num.
Proof. intros H. destruct (BigNum_of_ll_spec num H). apply returns_Ok; assumption. Qed.

Lemma BigNum_of_digit d :
  0 <= d <= 9 -> wf (BigNum_of_ll d) /\ value (BigNum_of_ll d) = d.
Proof. intros H. apply BigNum_of_ll_spec. unfold LLONG_MIN, LLONG_MAX. lia. Qed.

(** ** [operator/] *)

Section DIV.
Variable fuel : nat.
Hypothesis Hfuel : (10 <= fuel)%nat.
Variable dv : BigNum.
Hypothesis Hdv : wf dv.
Hypothesis Dpos : 0 < value dv.
Local Abbreviation D := (value dv).

Lemma div_while_spec k : forall remainder count,
  wf remainder -> 0 <= value remainder -> 0 <= count ->
  count + value remainder / D <= 1000 ->
  (Z.to_nat (value remainder / D) < k)%nat ->
  exists r, div_while fuel k remainder dv count = Ok (r, count + value remainder / D)
            /\ wf r /\ value r = value remainder mod D.
Proof.
  induction k as [|k IH]; intros remainder count Hr Hr0 Hc Hb Hk; [lia|].
  cbn [div_while]. rewrite ge_spec by (assumption || lia). cbn [bind].
  destruct (Z.leb_spec D (value remainder)) as [L|L].
  - destruct (sub_spec fuel remainder dv Hr Hdv ltac:(lia)) as (r & -> & Wr & Vr).
    cbn [bind].
    assert (Hq : value remainder / D = (value remainder - D) / D + 1).
    { replace (value remainder) with ((value remainder - D) + 1 * D) at 1 by ring.
      rewrite Z.div_add by lia. reflexivity. }
    assert (Hm : value remainder mod D = (value remainder - D) mod D).
    { replace (value remainder) with ((value remainder - D) + 1 * D) at 1 by ring.
      rewrite Z.mod_add by lia. reflexivity. }
    assert (0 <= (value remainder - D) / D) by (apply Z.div_pos; lia).
    rewrite (int_small (count + 1)) by lia.
    destruct (IH r (count + 1) Wr) as (r' & E & Wr' & Vr').
    + lia.
    + lia.
    + rewrite Vr. lia.
    + rewrite Vr. lia.
    + exists r'. rewrite E, Vr, Hq. split; [f_equal; f_equal; lia|].
      split; [exact Wr'|]. rewrite Vr', Vr, Hm. reflexivity.
  - exists remainder. rewrite Z.div_small, Z.mod_small by lia.
    split; [f_equal; f_equal; lia|]. split; [exact Hr|reflexivity].
Qed.

Variable a : list Z.
Hypothesis Ha : digits_ok a.

Lemma div_for_spec k : forall quotient remainder,
  wf remainder -> 0 <= value remainder < D ->
  digits_ok (digits quotient) -> digits quotient <> [] ->
  exists q r,
    div_for fuel k a dv quotient remainder = Ok (q, r) /\
    digits_ok (digits q) /\ digits q <> [] /\
    dval (digits q) =
      dval (digits quotient) * 10 ^ Z.of_nat k
      + (value remainder * 10 ^ Z.of_nat k + dval (take k a)) / D.
Proof.
  induction k as [|k IH]; intros quotient remainder Hr Hr0 Hq Hne.
  - cbn [div_for]. exists quotient, remainder. split; [reflexivity|].
    split; [exact Hq|]. split; [exact Hne|]. rewrite take_0. cbn [dval].
    rewrite Z.pow_0_r, Z.mul_1_r, Z.add_0_r, Z.mul_1_r.
    rewrite Z.div_small by lia. lia.
  - cbn [div_for].
    pose proof (get_ok a k Ha) as Ga.
    destruct (BigNum_of_digit (get a k) Ga) as [Wd Vd].
    assert (W10 : wf (BigNum_of_ll 10) /\ value (BigNum_of_ll 10) = 10).
    { apply BigNum_of_ll_spec. unfold LLONG_MIN, LLONG_MAX. lia. }
    destruct W10 as [W10 V10].
    destruct (mul_spec remainder (BigNum_of_ll 10) Hr W10) as [Wm Vm].
    destruct (add_spec fuel _ _ Wm Wd ltac:(lia)) as (r10 & -> & W1 & V1).
    cbn [bind]. rewrite Vm, V10, Vd in V1.
    assert (Hq9 : 0 <= value r10 / D <= 9).
    { split; [apply Z.div_pos; lia|].
      assert (value r10 / D < 10); [|lia].
      apply Z.div_lt_upper_bound; lia. }
    destruct (div_while_spec fuel r10 0 W1 ltac:(lia) ltac:(lia) ltac:(lia) ltac:(lia))
      as (r & -> & Wr & Vr).
    cbn [bind]. rewrite Z.add_0_l.
    pose proof (Z.mod_pos_bound (value r10) D Dpos) as Hmod.
    destruct (IH (mkBigNum (value r10 / D :: digits quotient) (is_negative quotient)) r
                 Wr ltac:(lia)) as (q' & r' & -> & Q1 & Q2 & Q3).
    + cbn [digits]. constructor; [lia|exact Hq].
    + cbn [digits]. discriminate.
    + exists q', r'. split; [reflexivity|]. split; [exact Q1|]. split; [exact Q2|].
      rewrite Q3. cbn [digits dval]. rewrite Vr, dval_take.
      rewrite Nat2Z.inj_succ, Z.pow_succ_r by lia.
      pose proof (Z.div_mod (value r10) D ltac:(lia)) as Hdm.
      set (c := value r10 / D) in *. set (m := value r10 mod D) in *.
      set (P := 10 ^ Z.of_nat k). set (T := dval (take k a)).
      assert (E : value remainder * 10 + get a k = D * c + m) by lia.
      replace (value remainder * (10 * P) + (T + P * get a k))
        with (P * (value remainder * 10 + get a k) + T) by ring.
      rewrite E.
      replace (P * (D * c + m) + T) with ((m * P + T) + (c * P) * D) by ring.
      rewrite Z.div_add by lia. ring.
Qed.
End DIV.

Lemma div_zero fuel a b : isZero b = true -> div fuel a b = Throw DivisionByZero.
Proof. intros H. unfold div. rewrite H. reflexivity. Qed.

Lemma wf_abs a : wf a -> wf (mkBigNum (digits a) false) /\
                         value (mkBigNum (digits a) false) = Z.abs (value a).
Proof.
  intros Ha. split.
  - destruct Ha as [H1 H2 H3]. split; auto.
  - unfold value at 1. cbn [digits is_negative]. apply dval_abs, Ha.
Qed.

(** Ten rounds of fuel are enough to divide well-formed numbers; the
    quotient is truncated towards zero. *)
Lemma div_spec fuel a b :
  wf a -> wf b -> value b <> 0 -> (10 <= fuel)%nat ->
  returns (div fuel a b) (Z.quot (value a) (value b)).
Proof.
  intros Ha Hb Hnz Hf. unfold div.
  rewrite (isZero_value b Hb). destruct (Z.eqb_spec (value b) 0) as [|_]; [contradiction|].
  rewrite (isZero_value a Ha). destruct (Z.eqb_spec (value a) 0) as [Ea|Ea].
  { rewrite Ea, Z.quot_0_l by exact Hnz. apply BigNum_of_ll_returns.
    unfold LLONG_MIN, LLONG_MAX. lia. }
  destruct (wf_abs a Ha) as [Wa Va]. destruct (wf_abs b Hb) as [Wb Vb].
  rewrite lt_spec by (assumption || lia). cbn [bind]. rewrite Va, Vb.
  assert (Hq : Z.quot (value a) (value b)
               = Z.sgn (value a) * Z.sgn (value b) * (Z.abs (value a) / Z.abs (value b))).
  { rewrite <- Z.quot_div_nonneg by lia.
    destruct (Z.abs_spec (value a)) as [[? ->]|[? ->]],
             (Z.abs_spec (value b)) as [[? ->]|[? ->]];
      rewrite ?Z.quot_opp_l, ?Z.quot_opp_r by lia;
      destruct (Z.sgn_spec (value a)) as [[? ->]|[[? ->]|[? ->]]],
               (Z.sgn_spec (value b)) as [[? ->]|[[? ->]|[? ->]]]; lia. }
  destruct (Z.ltb_spec (Z.abs (value a)) (Z.abs (value b))) as [L|L].
  { rewrite Hq, Z.div_small, Z.mul_0_r by lia. apply BigNum_of_ll_returns.
    unfold LLONG_MIN, LLONG_MAX. lia. }
  destruct (BigNum_of_digit 0 ltac:(lia)) as [W0 V0].
  destruct (div_for_spec fuel Hf _ Wb ltac:(lia) (digits a) (wf_digits a Ha)
              (length (digits a)) (BigNum_of_ll 0) (BigNum_of_ll 0) W0 ltac:(lia)
              (wf_digits _ W0) ltac:(discriminate))
    as (q & r & -> & Q1 & Q2 & Q3).
  cbn [bind]. rewrite V0, Vb, dval_take_ge in Q3 by lia.
  change (dval (digits (BigNum_of_ll 0))) with 0 in Q3.
  rewrite !Z.mul_0_l, !Z.add_0_l, (dval_abs a Ha) in Q3.
  pose proof (removeLeadingZeros_value (digits q)) as V.
  pose proof (removeLeadingZeros_ok _ Q1) as O.
  pose proof (removeLeadingZeros_msd _ Q2) as M.
  apply returns_Ok.
  - apply wf_mk; try assumption.
    rewrite isZero_digits_value by assumption. intros ->. reflexivity.
  - unfold value at 1. cbn [digits is_negative].
    rewrite isZero_digits_value by assumption. rewrite V, Q3, Hq.
    rewrite (wf_nonneg_value a Ha), (wf_nonneg_value b Hb).
    assert (0 < Z.abs (value a) / Z.abs (value b)).
    { apply Z.div_str_pos. lia. }
    destruct (Z.eqb_spec (Z.abs (value a) / Z.abs (value b)) 0); [lia|].
    destruct (Z.ltb_spec (value a) 0), (Z.ltb_spec (value b) 0); cbn [xorb];
      destruct (Z.sgn_spec (value a)) as [[? ->]|[[? ->]|[? ->]]],
               (Z.sgn_spec (value b)) as [[? ->]|[[? ->]|[? ->]]]; lia.
Qed.

(** ** [operator%] *)

(** Truncated remainder, moved into [0, |b|) when negative. *)
Lemma rem_adjust a b :
  b <> 0 ->
  let r := a - Z.quot a b * b in
  (if r <? 0 then r + Z.abs b else r) = a mod Z.abs b.
Proof.
  intros Hb r.
  pose proof (Z.quot_rem' a b) as E.
  pose proof (Z.rem_bound_abs a b Hb) as Habs.
  assert (Hr : r = Z.rem a b) by (subst r; lia).
  destruct (Z.ltb_spec r 0) as [L|L].
  - destruct (Z.abs_spec b) as [[Hp Eb]|[Hn Eb]]; rewrite Eb in *.
    + apply Z.mod_unique_pos with (q := Z.quot a b - 1); lia.
    + apply Z.mod_unique_pos with (q := - Z.quot a b - 1); lia.
  - destruct (Z.abs_spec b) as [[Hp Eb]|[Hn Eb]]; rewrite Eb in *.
    + apply Z.mod_unique_pos with (q := Z.quot a b); lia.
    + apply Z.mod_unique_pos with (q := - Z.quot a b); lia.
Qed.

Lemma mod_zero fuel a b : isZero b = true -> mod_ fuel a b = Throw DivisionByZero.
Proof. intros H. unfold mod_. rewrite H. reflexivity. Qed.

Lemma abs_operand b :
  wf b -> wf (if is_negative b then neg b else b) /\
          value (if is_negative b then neg b else b) = Z.abs (value b).
Proof.
  intros Hb. pose proof (wf_nonneg_value b Hb) as Hs.
  destruct (is_negative b).
  - split; [apply neg_wf, Hb|]. rewrite neg_value by exact Hb.
    symmetry in Hs. apply Z.ltb_lt in Hs. lia.
  - split; [exact Hb|]. symmetry in Hs. apply Z.ltb_ge in Hs. lia.
Qed.

(** The remainder lies in [0, |b|): it is [a mod |b|]. *)
Lemma mod_spec fuel a b :
  wf a -> wf b -> value b <> 0 -> (10 <= fuel)%nat ->
  returns (mod_ fuel a b) (value a mod Z.abs (value b)).
Proof.
  intros Ha Hb Hnz Hf. unfold mod_.
  rewrite (isZero_value b Hb). destruct (Z.eqb_spec (value b) 0) as [|_]; [contradiction|].
  eapply returns_bind; [apply div_spec; assumption|].
  intros q Wq Vq.
  destruct (mul_spec q b Wq Hb) as [Wm Vm].
  eapply returns_bind; [apply sub_spec; (assumption || lia)|].
  intros r Wr Vr. rewrite Vm, Vq in Vr.
  pose proof (rem_adjust (value a) (value b) Hnz) as Hadj. cbv zeta in Hadj.
  rewrite <- Vr in Hadj. rewrite (wf_nonneg_value r Wr).
  destruct (Z.ltb_spec (value r) 0) as [L|L].
  - destruct (abs_operand b Hb) as [Wab Vab].
    destruct (add_spec fuel r _ Wr Wab ltac:(lia)) as (s & E & Ws & Vs).
    exists s. split; [exact E|]. split; [exact Ws|]. rewrite Vs, Vab. exact Hadj.
  - apply returns_Ok; assumption.
Qed.

(** ** [addMod], [mulMod] *)

Lemma addMod_spec fuel a b m :
  wf a -> wf b -> wf m -> value m <> 0 -> (10 <= fuel)%nat ->
  returns (addMod fuel a b m) ((value a + value b) mod Z.abs (value m)).
Proof.
  intros Ha Hb Hm Hnz Hf. unfold addMod.
  eapply returns_bind; [apply add_spec; (assumption || lia)|].
  intros s Ws <-. apply mod_spec; assumption.
Qed.

Lemma mulMod_spec fuel a b m :
  wf a -> wf b -> wf m -> value m <> 0 -> (10 <= fuel)%nat ->
  returns (mulMod fuel a b m) ((value a * value b) mod Z.abs (value m)).
Proof.
  intros Ha Hb Hm Hnz Hf. unfold mulMod.
  destruct (mul_spec a b Ha Hb) as [Wm <-]. apply mod_spec; assumption.
Qed.

(** ** [powMod] *)

Lemma isOne_value a : wf a -> isOne a = (value a =? 1).
Proof.
  intros Ha. pose proof (wf_nonneg_value a Ha) as Hs.
  destruct Ha as [H1 H2 H3]. unfold isOne, value in *.
  destruct (is_negative a); cbn [negb andb].
  - symmetry in Hs. apply Z.ltb_lt in Hs. symmetry. apply Z.eqb_neq. lia.
  - destruct (digits a) as [|d [|e l]] eqn:E.
    + discriminate.
    + cbn [dval]. destruct (Z.eqb_spec d 1), (Z.eqb_spec (d + 10 * 0) 1); lia || reflexivity.
    + pose proof (dval_lower _ H1 H2 ltac:(simpl; lia)) as L.
      assert (10 ^ 1 <= 10 ^ (Z.of_nat (length (d :: e :: l)) - 1)).
      { apply Z.pow_le_mono_r; simpl length; lia. }
      symmetry. apply Z.eqb_neq. change (10 ^ 1) with 10 in *. lia.
Qed.

(** The parity test [e.digits[0] & 1] reads the parity of the magnitude. *)
Lemma parity_digit e :
  wf e -> negb (Z.land (get (digits e) 0) 1 =? 0) = Z.odd (Z.abs (value e)).
Proof.
  intros He. rewrite <- (dval_abs e He). destruct He as [H1 H2 _].
  destruct (digits e) as [|d l]; [discriminate|].
  apply Forall_inv in H1. cbn [dval]. unfold get. cbn [nth].
  rewrite Z.odd_add_mul_even by (exists 5; ring).
  change 1 with (Z.ones 1) at 1. rewrite Z.land_ones by lia.
  change (2 ^ 1) with 2. rewrite Zmod_odd.
  destruct (Z.odd d); reflexivity.
Qed.

Section POWMOD.
Variable fuel : nat.
Hypothesis Hfuel : (10 <= fuel)%nat.
Variable m : BigNum.
Hypothesis Hm : wf m.
Hypothesis Hnz : value m <> 0.
Local Abbreviation M := (Z.abs (value m)).

Lemma powMod_loop_spec k : forall result base e,
  wf result -> wf base -> wf e ->
  0 <= value result < M ->
  Z.abs (value e) < 2 ^ (Z.of_nat k - 1) ->
  returns (powMod_loop fuel k result base e m)
          ((value result * value base ^ Z.abs (value e)) mod M).
Proof.
  induction k as [|k IH]; intros result base e Wr Wb We Hr Hk.
  { change (Z.of_nat 0 - 1) with (-1) in Hk. rewrite Z.pow_neg_r in Hk by lia. lia. }
  cbn [powMod_loop]. rewrite (isZero_value e We).
  destruct (Z.eqb_spec (value e) 0) as [E0|E0].
  { rewrite E0. change (Z.abs 0) with 0. rewrite Z.pow_0_r, Z.mul_1_r.
    rewrite Z.mod_small by lia. apply returns_Ok; [exact Wr|reflexivity]. }
  rewrite (parity_digit e We).
  assert (W2 : wf (BigNum_of_ll 2) /\ value (BigNum_of_ll 2) = 2).
  { apply BigNum_of_ll_spec. unfold LLONG_MIN, LLONG_MAX. lia. }
  destruct W2 as [W2 V2].
  set (n := Z.abs (value e)) in *.
  assert (Hn : 0 < n) by (subst n; lia).
  pose proof (Z.div_mod n 2 ltac:(lia)) as Hdm.
  pose proof (Z.mod_pos_bound n 2 ltac:(lia)) as Hmod.
  assert (Hhalf : Z.abs (Z.quot (value e) 2) = n / 2).
  { subst n. destruct (Z.abs_spec (value e)) as [[? ->]|[? ->]].
    - rewrite Z.quot_div_nonneg by lia. apply Z.abs_eq. apply Z.div_pos; lia.
    - replace (value e) with (- (- value e)) at 1 by lia.
      rewrite Z.quot_opp_l, Z.abs_opp, Z.quot_div_nonneg by lia.
      apply Z.abs_eq. apply Z.div_pos; lia. }
  assert (HM : 0 < M) by lia.
  assert (Hstep : forall r', wf r' -> 0 <= value r' < M ->
            returns (do e' <- div fuel e (BigNum_of_ll 2);
                     do base' <- mulMod fuel base base m;
                     powMod_loop fuel k r' base' e' m)
                    ((value r' * (value base * value base) ^ (n / 2)) mod M)).
  { intros r' Wr' Hr'.
    eapply returns_bind; [apply div_spec; try assumption; rewrite V2; lia|].
    intros e' We' Ve'. rewrite V2 in Ve'.
    eapply returns_bind; [apply mulMod_spec; assumption|].
    intros b' Wb' Vb'.
    replace ((value r' * (value base * value base) ^ (n / 2)) mod M)
      with ((value r' * value b' ^ Z.abs (value e')) mod M).
    - apply IH; try assumption. rewrite Ve', Hhalf.
      replace (Z.of_nat (S k) - 1) with (Z.succ (Z.of_nat k - 1)) in Hk by lia.
      destruct (Z.le_gt_cases 0 (Z.of_nat k - 1)) as [Hk0|Hk0].
      + rewrite Z.pow_succ_r in Hk by lia. apply Z.div_lt_upper_bound; lia.
      + assert (Z.of_nat k = 0) by lia.
        replace (Z.succ (Z.of_nat k - 1)) with 0 in Hk by lia.
        change (2 ^ 0) with 1 in Hk. lia.
    - rewrite Ve', Hhalf, Vb'.
      rewrite <- Z.mul_mod_idemp_r, Z.mod_pow_l, Z.mul_mod_idemp_r by lia.
      reflexivity. }
  assert (Hpow : value base ^ n = value base ^ (n mod 2) * (value base * value base) ^ (n / 2)).
  { rewrite Hdm at 1. rewrite Z.pow_add_r, Z.pow_mul_r by (try apply Z.div_pos; lia).
    rewrite Z.pow_2_r. ring. }
  rewrite Hpow, Zmod_odd, Z.mul_assoc.
  destruct (Z.odd n); cbn [negb].
  - eapply returns_bind; [apply mulMod_spec; assumption|].
    intros r' Wr' Vr'.
    rewrite Z.pow_1_r.
    rewrite <- Z.mul_mod_idemp_l, <- Vr' by lia.
    apply Hstep; [exact Wr'|]. rewrite Vr'. apply Z.mod_pos_bound. lia.
  - cbn [bind]. rewrite Z.pow_0_r, Z.mul_1_r.
    apply Hstep; assumption.
Qed.
End POWMOD.

Lemma powMod_spec fuel a e m :
  wf a -> wf e -> wf m -> value m <> 0 -> value m <> -1 ->
  (10 <= fuel)%nat -> Z.abs (value e) < 2 ^ (Z.of_nat fuel - 1) ->
  returns (powMod fuel a e m) (value a ^ Z.abs (value e) mod Z.abs (value m)).
Proof.
  intros Wa We Wm Hnz Hn1 Hf Hk. unfold powMod.
  rewrite (isOne_value m Wm). destruct (Z.eqb_spec (value m) 1) as [E1|E1].
  { rewrite E1. change (Z.abs 1) with 1. rewrite Z.mod_1_r.
    apply BigNum_of_ll_returns. unfold LLONG_MIN, LLONG_MAX. lia. }
  eapply returns_bind; [apply mod_spec; assumption|].
  intros base Wb Vb.
  assert (W1 : wf (BigNum_of_ll 1) /\ value (BigNum_of_ll 1) = 1).
  { apply BigNum_of_ll_spec. unfold LLONG_MIN, LLONG_MAX. lia. }
  destruct W1 as [W1 V1].
  replace (value a ^ Z.abs (value e) mod Z.abs (value m))
    with ((value (BigNum_of_ll 1) * value base ^ Z.abs (value e)) mod Z.abs (value m)).
  - apply powMod_loop_spec; try assumption. rewrite V1. lia.
  - rewrite V1, Z.mul_1_l, Vb. apply Z.mod_pow_l.
Qed.

(** ** [extendedGCD] on non-negative operands *)

Section EGCD.
Variable fuel : nat.
Hypothesis Hfuel : (10 <= fuel)%nat.

(** One level of the recursion, given what the call below returns. *)
Lemma extendedGCD_rec_step k a b :
  wf a -> wf b -> 0 <= value a -> 0 < value b ->
  (forall r, wf r -> value r = value a mod value b ->
             egcd_post b r (extendedGCD_rec fuel k b r)) ->
  egcd_post a b (extendedGCD_rec fuel (S k) a b).
Proof.
  intros Wa Wb Ha Hb Hrec. cbn [extendedGCD_rec]. rewrite (isZero_value b Wb).
  destruct (Z.eqb_spec (value b) 0) as [E0|E0]; [lia|].
  destruct (mod_spec fuel a b Wa Wb E0 Hfuel) as (r & -> & Wr & Vr).
  cbn [bind]. rewrite (Z.abs_eq (value b)) in Vr by lia.
  destruct (Hrec r Wr Vr) as (g & x1 & y1 & -> & Wg & Wx1 & Wy1 & Vg & Bz).
  cbn [bind].
  destruct (div_spec fuel a b Wa Wb E0 Hfuel) as (q & -> & Wq & Vq).
  cbn [bind]. rewrite Z.quot_div_nonneg in Vq by lia.
  destruct (mul_spec q y1 Wq Wy1) as [Wm Vm].
  destruct (sub_spec fuel x1 _ Wx1 Wm ltac:(lia)) as (y & -> & Wy & Vy).
  cbn [bind]. exists g, y1, y. split; [reflexivity|].
  repeat (split; [assumption|]). split.
  - rewrite Vg, Vr, Z.gcd_comm, Z.gcd_mod by exact E0. apply Z.gcd_comm.
  - rewrite Vy, Vm, Vq, <- Bz, Vr, (Z.mod_eq (value a) (value b)) by exact E0. ring.
Qed.

Lemma extendedGCD_rec_base k a b :
  wf a -> wf b -> 0 <= value a -> value b = 0 ->
  egcd_post a b (extendedGCD_rec fuel (S k) a b).
Proof.
  intros Wa Wb Ha Hb. cbn [extendedGCD_rec]. rewrite (isZero_value b Wb), Hb.
  cbn [Z.eqb].
  assert (W1 : wf (BigNum_of_ll 1) /\ value (BigNum_of_ll 1) = 1).
  { apply BigNum_of_ll_spec. unfold LLONG_MIN, LLONG_MAX. lia. }
  assert (W0 : wf (BigNum_of_ll 0) /\ value (BigNum_of_ll 0) = 0).
  { apply BigNum_of_ll_spec. unfold LLONG_MIN, LLONG_MAX. lia. }
  destruct W1 as [W1 V1], W0 as [W0 V0].
  exists a, (BigNum_of_ll 1), (BigNum_of_ll 0).
  split; [reflexivity|]. repeat (split; [assumption|]).
  rewrite V1, V0, Hb, Z.gcd_0_r_nonneg by lia. split; lia.
Qed.

(** Once the first operand is the larger, the product of the operands
    more than halves at each level. *)
Lemma extendedGCD_rec_desc k : forall a b,
  wf a -> wf b -> 0 <= value b < value a ->
  value a * value b < 2 ^ (Z.of_nat k - 1) ->
  egcd_post a b (extendedGCD_rec fuel k a b).
Proof.
  induction k as [|k IH]; intros a b Wa Wb Hab Hk.
  { change (Z.of_nat 0 - 1) with (-1) in Hk. rewrite Z.pow_neg_r in Hk by lia. nia. }
  destruct (Z.eq_dec (value b) 0) as [E0|E0].
  { apply extendedGCD_rec_base; (assumption || lia). }
  apply extendedGCD_rec_step; try (assumption || lia).
  intros r Wr Vr.
  pose proof (Z.mod_pos_bound (value a) (value b) ltac:(lia)) as Hr.
  pose proof (Z.div_mod (value a) (value b) E0) as Hdm.
  assert (1 <= value a / value b) by (apply Z.div_le_lower_bound; lia).
  assert (H2 : 2 * value r < value a) by nia.
  apply IH; try assumption; [lia|].
  replace (Z.of_nat (S k) - 1) with (Z.succ (Z.of_nat k - 1)) in Hk by lia.
  destruct (Z.le_gt_cases 0 (Z.of_nat k - 1)) as [Hk0|Hk0].
  - rewrite Z.pow_succ_r in Hk by lia. nia.
  - replace (Z.succ (Z.of_nat k - 1)) with 0 in Hk by lia.
    change (2 ^ 0) with 1 in Hk. nia.
Qed.

(** Fuel grows with the bit length of the second operand only. *)
Lemma extendedGCD_rec_spec k a b :
  wf a -> wf b -> 0 <= value a -> 0 <= value b ->
  value b * value b < 2 ^ (Z.of_nat k - 2) ->
  egcd_post a b (extendedGCD_rec fuel k a b).
Proof.
  intros Wa Wb Ha Hb Hk.
  destruct k as [|k].
  { change (Z.of_nat 0 - 2) with (-2) in Hk. rewrite Z.pow_neg_r in Hk by lia. nia. }
  replace (Z.of_nat (S k) - 2) with (Z.of_nat k - 1) in Hk by lia.
  destruct (Z.eq_dec (value b) 0) as [E0|E0].
  { apply extendedGCD_rec_base; assumption. }
  apply extendedGCD_rec_step; try (assumption || lia).
  intros r Wr Vr.
  pose proof (Z.mod_pos_bound (value a) (value b) ltac:(lia)) as Hr.
  apply extendedGCD_rec_desc; try assumption; [lia|].
  assert (value b * value r <= value b * value b) by nia. lia.
Qed.
End EGCD.

(** Bezout's identity holds when both operands are non-negative. *)
Lemma extendedGCD_nonneg fuel a b :
  wf a -> wf b -> is_negative a = false -> is_negative b = false ->
  (10 <= fuel)%nat -> value b * value b < 2 ^ (Z.of_nat fuel - 2) ->
  exists g x y,
    extendedGCD fuel a b = Ok (g, x, y) /\ wf g /\ wf x /\ wf y /\
    value g = Z.gcd (value a) (value b) /\
    value a * value x + value b * value y = value g.
Proof.
  intros Wa Wb Na Nb Hf Hk. unfold extendedGCD.
  rewrite (wf_nonneg_value a Wa) in Na. rewrite (wf_nonneg_value b Wb) in Nb.
  apply Z.ltb_ge in Na, Nb. apply extendedGCD_rec_spec; assumption.
Qed.

(** ** [modInverse] for a positive modulus *)

Section MODINV.
Variable fuel : nat.
Hypothesis Hfuel : (10 <= fuel)%nat.
Variables a m : BigNum.
Hypothesis Wa : wf a.
Hypothesis Wm : wf m.
Hypothesis Mpos : 0 < value m.
Hypothesis Mfuel : value m * value m < 2 ^ (Z.of_nat fuel - 2).

Lemma modInverse_none :
  Z.gcd (value a mod value m) (value m) <> 1 ->
  modInverse fuel a m = Throw NoInverse.
Proof.
  intros Hg. unfold modInverse.
  destruct (mod_spec fuel a m Wa Wm ltac:(lia) Hfuel) as (r & -> & Wr & Vr).
  cbn [bind]. rewrite (Z.abs_eq (value m)) in Vr by lia.
  pose proof (Z.mod_pos_bound (value a) (value m) Mpos) as Hr.
  destruct (extendedGCD_rec_spec fuel Hfuel fuel r m Wr Wm ltac:(lia) ltac:(lia) Mfuel)
    as (g & x & y & E & Wg & Wx & Wy & Vg & Bz).
  unfold extendedGCD. rewrite E. cbn [bind].
  rewrite (isOne_value g Wg), Vg, Vr.
  destruct (Z.eqb_spec (Z.gcd (value a mod value m) (value m)) 1); [contradiction|].
  reflexivity.
Qed.

Lemma modInverse_some :
  Z.gcd (value a mod value m) (value m) = 1 ->
  exists r, modInverse fuel a m = Ok r /\ wf r /\
            0 <= value r < value m /\
            (value a * value r) mod value m = 1 mod value m.
Proof.
  intros Hg. unfold modInverse.
  destruct (mod_spec fuel a m Wa Wm ltac:(lia) Hfuel) as (r & -> & Wr & Vr).
  cbn [bind]. rewrite (Z.abs_eq (value m)) in Vr by lia.
  pose proof (Z.mod_pos_bound (value a) (value m) Mpos) as Hr.
  destruct (extendedGCD_rec_spec fuel Hfuel fuel r m Wr Wm ltac:(lia) ltac:(lia) Mfuel)
    as (g & x & y & E & Wg & Wx & Wy & Vg & Bz).
  unfold extendedGCD. rewrite E. cbn [bind].
  rewrite (isOne_value g Wg), Vg, Vr, Hg. cbn [Z.eqb Pos.eqb negb].
  destruct (mod_spec fuel x m Wx Wm ltac:(lia) Hfuel) as (res & -> & Wres & Vres).
  cbn [bind]. rewrite (Z.abs_eq (value m)) in Vres by lia.
  pose proof (Z.mod_pos_bound (value x) (value m) Mpos) as Hres.
  rewrite (wf_nonneg_value res Wres).
  destruct (Z.ltb_spec (value res) 0); [lia|].
  exists res. split; [reflexivity|]. split; [exact Wres|]. split; [lia|].
  rewrite Vres, Z.mul_mod_idemp_r by lia.
  rewrite <- Z.mul_mod_idemp_l, <- Vr by lia.
  rewrite Vg, Vr, Hg in Bz.
  replace (value r * value x) with (1 + (- value y) * value m) by lia.
  apply Z.mod_add. lia.
Qed.
End MODINV.

(** ** Text: [toString] and the constructor from a string *)

Lemma digit_char_spec d :
  0 <= d <= 9 ->
  is_digit_char (digit_char d) = true /\
  digit_of_char (digit_char d) = d /\
  Ascii.eqb (digit_char d) "-"%char = false.
Proof.
  intros H.
  assert (E : d = 0 \/ d = 1 \/ d = 2 \/ d = 3 \/ d = 4 \/ d = 5 \/ d = 6 \/ d = 7
              \/ d = 8 \/ d = 9) by lia.
  repeat (destruct E as [->|E]; [vm_compute; auto|]). subst d. vm_compute. auto.
Qed.

Lemma toString_loop_spec ds k : forall result,
  (k <= length ds)%nat ->
  toString_loop k ds result = result ++ map digit_char (rev (take k ds)).
Proof.
  induction k as [|k IH]; intros result Hk.
  - rewrite take_0. cbn. rewrite app_nil_r. reflexivity.
  - cbn [toString_loop]. rewrite IH by lia.
    assert (Hl : ds !! k = Some (get ds k)).
    { unfold get. rewrite nth_lookup.
      destruct (ds !! k) eqn:E; [reflexivity|].
      apply lookup_ge_None in E. lia. }
    rewrite (take_S_r _ _ _ Hl), rev_app_distr. cbn [rev app map].
    rewrite <- app_assoc. reflexivity.
Qed.

Lemma parse_loop_digits body : forall pre post acc,
  Forall (fun c => is_digit_char c = true) body ->
  parse_loop (length body) (length pre) (pre ++ body ++ post) acc
  = acc ++ map digit_of_char (rev body).
Proof.
  induction body as [|c body IH] using rev_ind; intros pre post acc Hb.
  - cbn. rewrite app_nil_r. reflexivity.
  - apply Forall_app in Hb as [Hb Hc]. apply Forall_inv in Hc.
    rewrite length_app. cbn [length]. rewrite Nat.add_1_r. cbn [parse_loop].
    assert (Hn : nth (length pre + length body) (pre ++ (body ++ [c]) ++ post) zero = c).
    { rewrite app_nth2 by lia. rewrite <- app_assoc, app_nth2 by lia.
      replace (length pre + length body - length pre - length body)%nat with 0%nat by lia.
      reflexivity. }
    rewrite Hn, Hc. rewrite <- (app_assoc body [c] post).
    rewrite IH by exact Hb. rewrite rev_app_distr. cbn [rev app map].
    rewrite <- app_assoc. reflexivity.
Qed.

Lemma parse_loop_ok k start str : forall acc,
  digits_ok acc -> digits_ok (parse_loop k start str acc).
Proof.
  induction k as [|k IH]; intros acc Hacc; [exact Hacc|].
  cbn [parse_loop]. apply IH.
  destruct (is_digit_char (nth (start + k) str zero)) eqn:E; [|exact Hacc].
  apply digits_ok_snoc; [exact Hacc|].
  unfold is_digit_char in E. apply andb_true_iff in E as [E1 E2].
  apply Nat.leb_le in E1, E2. unfold digit_of_char. lia.
Qed.

(** Whatever the text, the constructor builds a well-formed number. *)
Lemma BigNum_of_string_wf s : wf (BigNum_of_string s).
Proof.
  unfold BigNum_of_string. destruct (list_ascii_of_string s) as [|c0 str] eqn:Es.
  - apply wf_mk; try reflexivity. repeat constructor; lia.
  - set (neg := Ascii.eqb c0 "-"). set (start := if neg then 1%nat else 0%nat).
    pose proof (parse_loop_ok (length (c0 :: str) - start) start (c0 :: str) []
                  ltac:(constructor)) as Hok.
    set (ds := parse_loop (length (c0 :: str) - start) start (c0 :: str) []) in *.
    assert (Hp : exists ds' neg', (match ds with [] => ([0], false) | _ => (ds, neg) end)
                                  = (ds', neg') /\ digits_ok ds' /\ ds' <> []).
    { destruct ds as [|d ds'] eqn:Ed.
      - exists [0], false. split; [reflexivity|]. split; [|discriminate].
        repeat constructor; lia.
      - exists (d :: ds'), neg. split; [reflexivity|]. split; [exact Hok|discriminate]. }
    destruct Hp as (ds' & neg' & -> & Hok' & Hne).
    pose proof (removeLeadingZeros_ok _ Hok') as O.
    pose proof (removeLeadingZeros_msd _ Hne) as M.
    apply wf_mk; try assumption.
    rewrite isZero_digits_value by assumption. intros ->. reflexivity.
Qed.

Lemma digit_char_inv l :
  digits_ok l ->
  Forall (fun c => is_digit_char c = true) (map digit_char l) /\
  map digit_of_char (map digit_char l) = l.
Proof.
  induction 1 as [|d l Hd _ [IH1 IH2]]; [split; [constructor|reflexivity]|].
  destruct (digit_char_spec d Hd) as (D1 & D2 & _).
  cbn [map]. split; [constructor; assumption|]. rewrite D2, IH2. reflexivity.
Qed.

(** Parsing the rendering of a well-formed number gives it back. *)
Lemma parse_toString a : wf a -> BigNum_of_string (toString a) = a.
Proof.
  intros Wa. pose proof Wa as [H1 H2 H3].
  unfold toString, BigNum_of_string.
  rewrite list_ascii_of_string_of_list_ascii.
  rewrite toString_loop_spec, take_ge by lia.
  assert (Hr : digits_ok (rev (digits a))) by (apply Forall_rev, H1).
  destruct (digit_char_inv _ Hr) as [Hc Hd].
  set (body := map digit_char (rev (digits a))) in *.
  assert (Hbody : map digit_of_char (rev body) = digits a).
  { subst body. rewrite <- map_rev, rev_involutive.
    apply (digit_char_inv _ H1). }
  assert (Hlen : length body = length (digits a)).
  { subst body. rewrite length_map, length_rev. reflexivity. }
  assert (Hne : digits a <> []) by (apply msd_okb_nonnil, H2).
  destruct a as [ds s]. cbn [digits is_negative] in *. unfold isZero in *.
  cbn [digits] in *.
  destruct (s && negb (isZero_digits ds)) eqn:Es.
  - apply andb_true_iff in Es as [-> Ez]. apply negb_true_iff in Ez.
    cbn [app]. change (Ascii.eqb "-" "-") with true. cbv iota.
    replace (length ("-"%char :: body) - 1)%nat with (length body) by (cbn [length]; lia).
    pose proof (parse_loop_digits body ["-"%char] [] [] Hc) as P.
    rewrite app_nil_r in P. cbn [length app] in P. rewrite P, Hbody.
    destruct ds as [|d ds']; [congruence|].
    rewrite removeLeadingZeros_id by exact H2. rewrite Ez. reflexivity.
  - cbn [app].
    assert (Hs : s = false).
    { destruct s; [|reflexivity]. cbn in Es. apply negb_false_iff in Es. auto. }
    subst s.
    destruct body as [|c0 body'] eqn:Eb.
    { destruct ds; [congruence|discriminate]. }
    assert (Hc0 : Ascii.eqb c0 "-" = false).
    { destruct (rev ds) as [|d r] eqn:Er; [discriminate|].
      apply Forall_inv in Hr. injection Eb as <- _.
      apply (digit_char_spec d Hr). }
    rewrite Hc0. rewrite Nat.sub_0_r.
    pose proof (parse_loop_digits (c0 :: body') [] [] [] Hc) as P.
    rewrite app_nil_r in P. cbn [length app] in P. cbn [length].
    rewrite P, Hbody.
    destruct ds as [|d ds']; [congruence|].
    rewrite removeLeadingZeros_id by exact H2.
    destruct (isZero_digits (d :: ds')); reflexivity.
Qed.

(** ** The scenarios of the specification, evaluated *)

Example scenario_addition :
  bind (add 10 (BigNum_of_string "12345678901234567890")
               (BigNum_of_string "98765432109876543210"))
       (fun r => Ok (toString r))
  = Ok "111111111011111111100"%string.
Proof. vm_compute. reflexivity. Qed.

Example scenario_subtraction :
  bind (sub 10 (BigNum_of_string "98765432109876543210")
               (BigNum_of_string "12345678901234567890"))
       (fun r => Ok (toString r))
  = Ok "86419753208641975320"%string.
Proof. vm_compute. reflexivity. Qed.

Example scenario_modInverse :
  exists inv,
    modInverse 10 (BigNum_of_ll 123) (BigNum_of_ll 1009) = Ok inv /\
    bind (mulMod 10 (BigNum_of_ll 123) inv (BigNum_of_ll 1009)) (fun r => Ok (isOne r))
    = Ok true.
Proof. exists (mkBigNum [4; 8; 4] false). split; vm_compute; reflexivity. Qed.

Example scenario_powMod :
  bind (powMod 20 (BigNum_of_ll 12345) (BigNum_of_ll 67890) (BigNum_of_ll 1000000009))
       (fun r => Ok (toString r))
  = Ok "921523788"%string.
Proof. vm_compute. reflexivity. Qed.

Example scenario_no_inverse :
  modInverse 10 (BigNum_of_ll 7) (BigNum_of_ll 14) = Throw NoInverse.
Proof. vm_compute. reflexivity. Qed.

Example scenario_division_by_zero :
  div 10 (BigNum_of_ll 5) (BigNum_of_ll 0) = Throw DivisionByZero.
Proof. vm_compute. reflexivity. Qed.

(** With a negative modulus the Bezout coefficients are off (see C5), and
    [modInverse(2, -5)] returns 2 although [2 * 2 mod 5] is 4. *)
Example modInverse_negative_modulus :
  modInverse 10 (BigNum_of_ll 2) (BigNum_of_ll (-5)) = Ok (BigNum_of_ll 2) /\
  mulMod 10 (BigNum_of_ll 2) (BigNum_of_ll 2) (BigNum_of_ll (-5)) = Ok (BigNum_of_ll 4).
Proof. split; vm_compute; reflexivity. Qed.

(** Why the operators carry fuel: on a negative zero, which no constructor
    or operator produces, [operator<] calls itself for ever. *)
Lemma lt_negative_zero_diverges fuel :
  lt fuel (mkBigNum [0] true) (mkBigNum [0] true) = OutOfFuel.
Proof. induction fuel as [|fuel IH]; [reflexivity|]. rewrite lt_S. exact IH. Qed.

(** * The claims *)

Lemma naive_pow_spec b n : naive_pow b n = b ^ Z.of_nat n.
Proof.
  induction n as [|n IH]; [reflexivity|].
  cbn [naive_pow]. rewrite IH, Nat2Z.inj_succ, Z.pow_succ_r by lia. reflexivity.
Qed.

Lemma wf_value_nonzero b : wf b -> isZero b = false -> value b <> 0.
Proof.
  intros Wb Hz. rewrite (isZero_value b Wb) in Hz. apply Z.eqb_neq, Hz.
Qed.

Lemma returns_same x y z :
  returns x z -> returns y z -> exists r, x = Ok r /\ y = Ok r /\ wf r /\ value r = z.
Proof.
  intros (r1 & -> & W1 & V1) (r2 & -> & W2 & V2).
  assert (r1 = r2) by (apply value_inj; congruence). subst r2.
  exists r1. auto.
Qed.

(** The value of [(a / b) * b + (a % b)]. *)
Lemma division_identity_value fuel a b :
  wf a -> wf b -> value b <> 0 -> (10 <= fuel)%nat ->
  exists q r s,
    div fuel a b = Ok q /\ mod_ fuel a b = Ok r /\ add fuel (mul q b) r = Ok s /\
    wf r /\ wf s /\
    value r = value a mod Z.abs (value b) /\
    value s = Z.quot (value a) (value b) * value b + value a mod Z.abs (value b).
Proof.
  intros Wa Wb Hnz Hf.
  destruct (div_spec fuel a b Wa Wb Hnz Hf) as (q & Eq & Wq & Vq).
  destruct (mod_spec fuel a b Wa Wb Hnz Hf) as (r & Er & Wr & Vr).
  destruct (mul_spec q b Wq Wb) as [Wm Vm].
  destruct (add_spec fuel _ r Wm Wr ltac:(lia)) as (s & Es & Ws & Vs).
  exists q, r, s. repeat (split; [assumption|]).
  rewrite Vs, Vm, Vq, Vr. reflexivity.
Qed.

(** The truncated remainder is negative exactly when the dividend is
    negative and the division is not exact. *)
Lemma rem_negative a b :
  b <> 0 ->
  (a - Z.quot a b * b <? 0) = (a <? 0) && negb (a mod Z.abs b =? 0).
Proof.
  intros Hb. pose proof (rem_adjust a b Hb) as Hadj. cbv zeta in Hadj.
  pose proof (Z.quot_rem' a b) as E.
  pose proof (Z.rem_bound_abs a b Hb) as Habs.
  assert (Hr : a - Z.quot a b * b = Z.rem a b) by lia. rewrite Hr in *.
  destruct (Z.ltb_spec (Z.rem a b) 0) as [L|L].
  - assert (a < 0).
    { destruct (Z.lt_ge_cases a 0) as [?|Hge]; [assumption|].
      pose proof (Z.rem_nonneg a b Hb Hge). lia. }
    destruct (Z.ltb_spec a 0); [|lia].
    destruct (Z.eqb_spec (a mod Z.abs b) 0); [lia|reflexivity].
  - destruct (Z.ltb_spec a 0) as [La|La]; [|reflexivity].
    pose proof (Z.rem_nonpos a b Hb ltac:(lia)).
    destruct (Z.eqb_spec (a mod Z.abs b) 0); [reflexivity|lia].
Qed.

(** C1 (as amended): for a well-formed [a] and a non-zero well-formed [b],
    [a / b], [a % b] and [(a / b) * b + (a % b)] all return, and the sum
    equals [a] exactly when [a] is non-negative or [a % b] is zero; when
    [a] is negative and [b] does not divide it, the sum is [a + |b|]:
    the quotient is truncated while the remainder is made non-negative. *)
Theorem C1_division_identity_amended (fuel : nat) (a b : BigNum) :
  canonical a = true -> canonical b = true -> isZero b = false ->
  (10 <= fuel)%nat ->
  exists q r s,
    div fuel a b = Ok q /\ mod_ fuel a b = Ok r /\
    add fuel (mul q b) r = Ok s /\
    eqb s a = negb (is_negative a) || isZero r /\
    (is_negative a = true -> isZero r = false ->
     value s = value a + Z.abs (value b)).
Proof.
  intros Ca Cb Hz Hf. apply canonical_wf in Ca, Cb.
  pose proof (wf_value_nonzero b Cb Hz) as Hnz.
  destruct (division_identity_value fuel a b Ca Cb Hnz Hf)
    as (q & r & s & Eq & Er & Es & Wr & Ws & Vr & Vs).
  exists q, r, s. repeat (split; [assumption|]).
  pose proof (rem_adjust (value a) (value b) Hnz) as Hadj. cbv zeta in Hadj.
  pose proof (rem_negative (value a) (value b) Hnz) as Hneg.
  rewrite (eqb_value s a Ws Ca), (isZero_value r Wr), (wf_nonneg_value a Ca), Vr, Vs.
  destruct (Z.ltb_spec (value a - Z.quot (value a) (value b) * value b) 0) as [L|L];
    destruct (Z.ltb_spec (value a) 0) as [La|La];
    destruct (Z.eqb_spec (value a mod Z.abs (value b)) 0) as [E0|E0];
    cbn in Hneg; try discriminate; cbn [negb orb]; split;
    try (apply Z.eqb_eq; lia); try (apply Z.eqb_neq; lia); intros; try discriminate; lia.
Qed.

Lemma C1_witness :
  exists q r s,
    div 10 (mkBigNum [7; 1] true) (mkBigNum [5] false) = Ok q /\
    mod_ 10 (mkBigNum [7; 1] true) (mkBigNum [5] false) = Ok r /\
    add 10 (mul q (mkBigNum [5] false)) r = Ok s /\
    eqb s (mkBigNum [7; 1] true)
      = negb (is_negative (mkBigNum [7; 1] true)) || isZero r /\
    (is_negative (mkBigNum [7; 1] true) = true -> isZero r = false ->
     value s = value (mkBigNum [7; 1] true) + Z.abs (value (mkBigNum [5] false))).
Proof.
  apply (C1_division_identity_amended 10 (mkBigNum [7; 1] true) (mkBigNum [5] false));
    [reflexivity|reflexivity|reflexivity|lia].
Defined.

(** C1 as stated fails: [-7 / 2] is [-3] and [-7 % 2] is [1], so
    [(a / b) * b + (a % b)] is [-5], not [-7]. *)
Lemma C1_counterexample :
  canonical (mkBigNum [7] true) = true /\
  canonical (mkBigNum [2] false) = true /\
  isZero (mkBigNum [2] false) = false /\
  div 10 (mkBigNum [7] true) (mkBigNum [2] false) = Ok (mkBigNum [3] true) /\
  mod_ 10 (mkBigNum [7] true) (mkBigNum [2] false) = Ok (mkBigNum [1] false) /\
  division_identity_lhs 10 (mkBigNum [7] true) (mkBigNum [2] false)
    = Ok (mkBigNum [5] true) /\
  eqb (mkBigNum [5] true) (mkBigNum [7] true) = false /\
  (forall fuel, (10 <= fuel)%nat ->
     exists s, division_identity_lhs fuel (mkBigNum [7] true) (mkBigNum [2] false) = Ok s
               /\ eqb s (mkBigNum [7] true) = false).
Proof.
  repeat (split; [vm_compute; reflexivity|]).
  intros fuel Hf.
  assert (Wa : wf (mkBigNum [7] true)) by (apply canonical_wf; reflexivity).
  assert (Wb : wf (mkBigNum [2] false)) by (apply canonical_wf; reflexivity).
  destruct (division_identity_value fuel _ _ Wa Wb ltac:(vm_compute; discriminate) Hf)
    as (q & r & s & Eq & Er & Es & Wr & Ws & Vr & Vs).
  exists s. unfold division_identity_lhs. rewrite Eq, Er. cbn [bind].
  split; [exact Es|]. rewrite (eqb_value s _ Ws Wa), Vs. reflexivity.
Qed.

(** C2 (as amended): for well-formed [a] and [m] with [m >= 1], with fuel
    for the bits of [m], [modInverse(a, m)] throws NoInverse exactly when
    [gcd(a mod m, m)] is not 1, and otherwise returns a well-formed
    [result] in [0, m) with [(a * result) mod m == 1 mod m]: that is 1
    when [m > 1], and 0 when [m] is 1. *)
Theorem C2_modInverse_amended (fuel : nat) (a m : BigNum) :
  canonical a = true -> canonical m = true -> 1 <= value m ->
  (10 <= fuel)%nat -> value m * value m < 2 ^ (Z.of_nat fuel - 2) ->
  (modInverse fuel a m = Throw NoInverse <->
   Z.gcd (value a mod value m) (value m) <> 1) /\
  (Z.gcd (value a mod value m) (value m) = 1 ->
   exists result, modInverse fuel a m = Ok result) /\
  (forall result, modInverse fuel a m = Ok result ->
     canonical result = true /\
     exists p one,
       mulMod fuel a result m = Ok p /\
       mod_ fuel (BigNum_of_ll 1) m = Ok one /\
       eqb p one = true /\
       (1 < value m -> isOne p = true)).
Proof.
  intros Ca Cm Hm Hf Hk. apply canonical_wf in Ca, Cm.
  destruct (Z.eq_dec (Z.gcd (value a mod value m) (value m)) 1) as [Hg|Hg].
  - destruct (modInverse_some fuel Hf a m Ca Cm ltac:(lia) Hk Hg)
      as (r & Er & Wr & Hr & Hinv).
    split; [|split].
    + rewrite Er. split; [discriminate|contradiction].
    + intros _. exists r. exact Er.
    + intros result E. rewrite Er in E. injection E as <-.
      split; [apply canonical_wf, Wr|].
      destruct (mulMod_spec fuel a r m Ca Wr Cm ltac:(lia) Hf) as (p & Ep & Wp & Vp).
      assert (W1 : wf (BigNum_of_ll 1) /\ value (BigNum_of_ll 1) = 1).
      { apply BigNum_of_ll_spec. unfold LLONG_MIN, LLONG_MAX. lia. }
      destruct W1 as [W1 V1].
      destruct (mod_spec fuel _ m W1 Cm ltac:(lia) Hf) as (one & Eo & Wo & Vo).
      rewrite (Z.abs_eq (value m)) in Vp, Vo by lia. rewrite V1 in Vo.
      exists p, one. split; [exact Ep|]. split; [exact Eo|]. split.
      * rewrite (eqb_value p one Wp Wo). apply Z.eqb_eq. congruence.
      * intros H1. rewrite (isOne_value p Wp). apply Z.eqb_eq.
        rewrite Vp, Hinv. apply Z.mod_small. lia.
  - rewrite (modInverse_none fuel Hf a m Ca Cm ltac:(lia) Hk Hg).
    split; [split; auto|]. split; [contradiction|]. intros result E. discriminate.
Qed.

Lemma C2_witness :
  (modInverse 20 (mkBigNum [3; 2; 1] false) (mkBigNum [7; 1] false) = Throw NoInverse <->
   Z.gcd (value (mkBigNum [3; 2; 1] false) mod value (mkBigNum [7; 1] false))
         (value (mkBigNum [7; 1] false)) <> 1) /\
  (Z.gcd (value (mkBigNum [3; 2; 1] false) mod value (mkBigNum [7; 1] false))
         (value (mkBigNum [7; 1] false)) = 1 ->
   exists result,
     modInverse 20 (mkBigNum [3; 2; 1] false) (mkBigNum [7; 1] false) = Ok result) /\
  (forall result,
     modInverse 20 (mkBigNum [3; 2; 1] false) (mkBigNum [7; 1] false) = Ok result ->
     canonical result = true /\
     exists p one,
       mulMod 20 (mkBigNum [3; 2; 1] false) result (mkBigNum [7; 1] false) = Ok p /\
       mod_ 20 (BigNum_of_ll 1) (mkBigNum [7; 1] false) = Ok one /\
       eqb p one = true /\
       (1 < value (mkBigNum [7; 1] false) -> isOne p = true)).
Proof.
  apply (C2_modInverse_amended 20 (mkBigNum [3; 2; 1] false) (mkBigNum [7; 1] false));
    [reflexivity|reflexivity|vm_compute; discriminate|lia|vm_compute; reflexivity].
Defined.

(** C2 as stated fails at the non-zero modulus 1: [modInverse(5, 1)]
    succeeds and returns 0, and [(5 * 0) mod 1] is 0, not 1. *)
Lemma C2_counterexample :
  canonical (mkBigNum [5] false) = true /\
  canonical (mkBigNum [1] false) = true /\
  isZero (mkBigNum [1] false) = false /\
  modInverse 10 (mkBigNum [5] false) (mkBigNum [1] false) = Ok (mkBigNum [0] false) /\
  mulMod 10 (mkBigNum [5] false) (mkBigNum [0] false) (mkBigNum [1] false)
    = Ok (mkBigNum [0] false) /\
  eqb (mkBigNum [0] false) (BigNum_of_ll 1) = false /\
  (forall fuel, (10 <= fuel)%nat ->
     exists result p,
       modInverse fuel (mkBigNum [5] false) (mkBigNum [1] false) = Ok result /\
       mulMod fuel (mkBigNum [5] false) result (mkBigNum [1] false) = Ok p /\
       eqb p (BigNum_of_ll 1) = false).
Proof.
  repeat (split; [vm_compute; reflexivity|]).
  intros fuel Hf.
  assert (Wa : wf (mkBigNum [5] false)) by (apply canonical_wf; reflexivity).
  assert (Wm : wf (mkBigNum [1] false)) by (apply canonical_wf; reflexivity).
  assert (W1 : wf (BigNum_of_ll 1)) by (apply canonical_wf; reflexivity).
  assert (Hk : value (mkBigNum [1] false) * value (mkBigNum [1] false)
               < 2 ^ (Z.of_nat fuel - 2)).
  { change (value (mkBigNum [1] false) * value (mkBigNum [1] false)) with (2 ^ 0).
    apply Z.pow_lt_mono_r; lia. }
  destruct (modInverse_some fuel Hf _ _ Wa Wm ltac:(vm_compute; reflexivity) Hk
              ltac:(vm_compute; reflexivity))
    as (r & Er & Wr & Hr & Hinv).
  destruct (mulMod_spec fuel _ r _ Wa Wr Wm ltac:(vm_compute; discriminate) Hf)
    as (p & Ep & Wp & Vp).
  exists r, p. split; [exact Er|]. split; [exact Ep|].
  rewrite (eqb_value p _ Wp W1), Vp.
  change (Z.abs (value (mkBigNum [1] false))) with 1. rewrite Z.mod_1_r. reflexivity.
Qed.

(** C3: for a non-negative exponent and a positive modulus, with enough
    fuel for the exponent's bits, [powMod] returns the naive repeated
    product reduced mod [m]; with [m] equal to 1 that is 0. *)
Theorem C3_powMod_naive (fuel : nat) (base e m : BigNum) :
  canonical base = true -> canonical e = true -> canonical m = true ->
  is_negative e = false -> 1 <= value m ->
  (10 <= fuel)%nat -> value e < 2 ^ (Z.of_nat fuel - 1) ->
  exists r,
    powMod fuel base e m = Ok r /\ canonical r = true /\
    value r = naive_pow (value base) (Z.to_nat (value e)) mod value m /\
    (isOne m = true -> isZero r = true).
Proof.
  intros Cb Ce Cm Ne Hm Hf Hk. apply canonical_wf in Cb, Ce, Cm.
  rewrite (wf_nonneg_value e Ce) in Ne. apply Z.ltb_ge in Ne.
  destruct (powMod_spec fuel base e m Cb Ce Cm ltac:(lia) ltac:(lia) Hf ltac:(lia))
    as (r & Er & Wr & Vr).
  rewrite (Z.abs_eq (value e)), (Z.abs_eq (value m)) in Vr by lia.
  exists r. split; [exact Er|]. split; [apply canonical_wf, Wr|]. split.
  - rewrite naive_pow_spec, Z2Nat.id by lia. exact Vr.
  - intros H1. rewrite (isOne_value m Cm) in H1. apply Z.eqb_eq in H1.
    rewrite (isZero_value r Wr), Vr, H1, Z.mod_1_r. reflexivity.
Qed.

Lemma C3_witness :
  exists r,
    powMod 12 (mkBigNum [3] false) (mkBigNum [3; 1] false) (mkBigNum [7; 1] false) = Ok r /\
    canonical r = true /\
    value r = naive_pow (value (mkBigNum [3] false))
                (Z.to_nat (value (mkBigNum [3; 1] false)))
              mod value (mkBigNum [7; 1] false) /\
    (isOne (mkBigNum [7; 1] false) = true -> isZero r = true).
Proof.
  apply (C3_powMod_naive 12 (mkBigNum [3] false) (mkBigNum [3; 1] false) (mkBigNum [7; 1] false));
    [reflexivity|reflexivity|reflexivity|reflexivity|vm_compute; discriminate|lia
    |vm_compute; reflexivity].
Defined.

(** C4: for a well-formed [a] and a non-zero well-formed [b], [a % b]
    returns a well-formed remainder that is non-negative and strictly
    below the magnitude of [b]. *)
Theorem C4_mod_range (fuel : nat) (a b : BigNum) :
  canonical a = true -> canonical b = true -> isZero b = false ->
  (10 <= fuel)%nat ->
  exists r,
    mod_ fuel a b = Ok r /\ canonical r = true /\
    is_negative r = false /\
    0 <= value r < Z.abs (value b) /\
    lt fuel r (mkBigNum (digits b) false) = Ok true.
Proof.
  intros Ca Cb Hz Hf. apply canonical_wf in Ca, Cb.
  pose proof (wf_value_nonzero b Cb Hz) as Hnz.
  destruct (mod_spec fuel a b Ca Cb Hnz Hf) as (r & Er & Wr & Vr).
  pose proof (Z.mod_pos_bound (value a) (Z.abs (value b)) ltac:(lia)) as Hb.
  exists r. split; [exact Er|]. split; [apply canonical_wf, Wr|]. split; [|split].
  - rewrite (wf_nonneg_value r Wr). apply Z.ltb_ge. lia.
  - lia.
  - destruct (wf_abs b Cb) as [Wab Vab].
    rewrite lt_spec by (assumption || lia). f_equal. apply Z.ltb_lt. lia.
Qed.

Lemma C4_witness :
  exists r,
    mod_ 10 (mkBigNum [7; 1] true) (mkBigNum [5] true) = Ok r /\ canonical r = true /\
    is_negative r = false /\
    0 <= value r < Z.abs (value (mkBigNum [5] true)) /\
    lt 10 r (mkBigNum (digits (mkBigNum [5] true)) false) = Ok true.
Proof.
  apply (C4_mod_range 10 (mkBigNum [7; 1] true) (mkBigNum [5] true));
    [reflexivity|reflexivity|reflexivity|lia].
Defined.

(** C5 fails on the code: [extendedGCD(-7, 2)] returns gcd 1 with
    [x = 1] and [y = 3], and [a*x + b*y] is [-1], not the gcd.  The
    recursion computes [a % b] with the non-negative remainder but
    back-substitutes with the truncated quotient [a / b]. *)
Theorem C5_extendedGCD_negative_operand :
  canonical (mkBigNum [7] true) = true /\
  canonical (mkBigNum [2] false) = true /\
  extendedGCD 10 (mkBigNum [7] true) (mkBigNum [2] false)
    = Ok (mkBigNum [1] false, mkBigNum [1] false, mkBigNum [3] false) /\
  add 10 (mul (mkBigNum [7] true) (mkBigNum [1] false))
         (mul (mkBigNum [2] false) (mkBigNum [3] false))
    = Ok (mkBigNum [1] true) /\
  eqb (mkBigNum [1] true) (mkBigNum [1] false) = false.
Proof. repeat split; vm_compute; reflexivity. Qed.

Lemma isZero_not_isOne z : isZero z = true -> isOne z = false.
Proof.
  unfold isZero, isZero_digits, isOne.
  destruct (digits z) as [|d [|e l]]; try discriminate.
  intros E. apply Z.eqb_eq in E. subst d. apply andb_false_r.
Qed.

(** C6: a zero divisor makes [/] and [%] throw DivisionByZero whatever
    the dividend, and [mulMod], [powMod], [modInverse] and [addMod] pass
    the exception on: [addMod] first adds, which returns for well-formed
    operands, and never returns a value either way. *)
Theorem C6_division_by_zero (fuel : nat) (a b z : BigNum) :
  isZero z = true ->
  div fuel a z = Throw DivisionByZero /\
  mod_ fuel a z = Throw DivisionByZero /\
  mulMod fuel a b z = Throw DivisionByZero /\
  powMod fuel a b z = Throw DivisionByZero /\
  modInverse fuel a z = Throw DivisionByZero /\
  (forall r, addMod fuel a b z <> Ok r) /\
  (canonical a = true -> canonical b = true -> (4 <= fuel)%nat ->
   addMod fuel a b z = Throw DivisionByZero).
Proof.
  intros Hz.
  split; [apply div_zero, Hz|].
  split; [apply mod_zero, Hz|].
  split; [apply mod_zero, Hz|].
  split; [unfold powMod; rewrite (isZero_not_isOne z Hz), mod_zero by exact Hz; reflexivity|].
  split; [unfold modInverse; rewrite mod_zero by exact Hz; reflexivity|].
  split.
  - intros r. unfold addMod. destruct (add fuel a b) as [s| |]; cbn [bind];
      [rewrite mod_zero by exact Hz|..]; discriminate.
  - intros Ca Cb Hf. apply canonical_wf in Ca, Cb. unfold addMod.
    destruct (add_spec fuel a b Ca Cb Hf) as (s & -> & _). cbn [bind].
    apply mod_zero, Hz.
Qed.

Lemma C6_witness :
  div 4 (mkBigNum [5] false) (mkBigNum [0] false) = Throw DivisionByZero /\
  mod_ 4 (mkBigNum [5] false) (mkBigNum [0] false) = Throw DivisionByZero /\
  mulMod 4 (mkBigNum [5] false) (mkBigNum [3] true) (mkBigNum [0] false)
    = Throw DivisionByZero /\
  powMod 4 (mkBigNum [5] false) (mkBigNum [3] true) (mkBigNum [0] false)
    = Throw DivisionByZero /\
  modInverse 4 (mkBigNum [5] false) (mkBigNum [0] false) = Throw DivisionByZero /\
  (forall r, addMod 4 (mkBigNum [5] false) (mkBigNum [3] true) (mkBigNum [0] false) <> Ok r) /\
  (canonical (mkBigNum [5] false) = true -> canonical (mkBigNum [3] true) = true ->
   (4 <= 4)%nat ->
   addMod 4 (mkBigNum [5] false) (mkBigNum [3] true) (mkBigNum [0] false)
     = Throw DivisionByZero).
Proof.
  apply (C6_division_by_zero 4 (mkBigNum [5] false) (mkBigNum [3] true) (mkBigNum [0] false)).
  reflexivity.
Defined.

(** C7: parsing the decimal rendering of a canonical number gives the
    number back, and [operator==] agrees. *)
Theorem C7_parse_render_roundtrip (a : BigNum) :
  canonical a = true ->
  BigNum_of_string (toString a) = a /\
  eqb (BigNum_of_string (toString a)) a = true.
Proof.
  intros Ca. apply canonical_wf in Ca.
  pose proof (parse_toString a Ca) as E. split; [exact E|]. apply eqb_eq, E.
Qed.

Lemma C7_witness :
  BigNum_of_string (toString (mkBigNum [0; 9; 8; 7] true)) = mkBigNum [0; 9; 8; 7] true /\
  eqb (BigNum_of_string (toString (mkBigNum [0; 9; 8; 7] true)))
      (mkBigNum [0; 9; 8; 7] true) = true.
Proof. apply (C7_parse_render_roundtrip (mkBigNum [0; 9; 8; 7] true)). reflexivity. Defined.

(** [powMod] returns a well-formed number for every non-zero modulus and
    every exponent, whatever its sign. *)
Lemma powMod_loop_wf fuel m k :
  (10 <= fuel)%nat -> wf m -> value m <> 0 ->
  forall result base e,
    wf result -> wf base -> wf e ->
    Z.abs (value e) < 2 ^ (Z.of_nat k - 1) ->
    exists r, powMod_loop fuel k result base e m = Ok r /\ wf r.
Proof.
  intros Hf Wm Hnz. induction k as [|k IH]; intros result base e Wr Wb We Hk.
  { change (Z.of_nat 0 - 1) with (-1) in Hk. rewrite Z.pow_neg_r in Hk by lia. lia. }
  cbn [powMod_loop]. rewrite (isZero_value e We).
  destruct (Z.eqb_spec (value e) 0) as [E0|E0]; [exists result; auto|].
  assert (W2 : wf (BigNum_of_ll 2) /\ value (BigNum_of_ll 2) = 2).
  { apply BigNum_of_ll_spec. unfold LLONG_MIN, LLONG_MAX. lia. }
  destruct W2 as [W2 V2].
  assert (Hr : exists r', (if negb (Z.land (get (digits e) 0) 1 =? 0)
                           then mulMod fuel result base m else Ok result) = Ok r' /\ wf r').
  { destruct (negb (Z.land (get (digits e) 0) 1 =? 0)); [|exists result; auto].
    destruct (mulMod_spec fuel result base m Wr Wb Wm Hnz Hf) as (r' & E & W & _).
    exists r'. auto. }
  destruct Hr as (r' & -> & Wr'). cbn [bind].
  destruct (div_spec fuel e _ We W2 ltac:(lia) Hf) as (e' & -> & We' & Ve').
  cbn [bind].
  destruct (mulMod_spec fuel base base m Wb Wb Wm Hnz Hf) as (b' & -> & Wb' & _).
  cbn [bind]. apply IH; try assumption.
  rewrite Ve', V2.
  assert (Hhalf : Z.abs (Z.quot (value e) 2) = Z.abs (value e) / 2).
  { destruct (Z.abs_spec (value e)) as [[? ->]|[? ->]].
    - rewrite Z.quot_div_nonneg by lia. apply Z.abs_eq. apply Z.div_pos; lia.
    - replace (value e) with (- (- value e)) at 1 by lia.
      rewrite Z.quot_opp_l, Z.abs_opp, Z.quot_div_nonneg by lia.
      apply Z.abs_eq. apply Z.div_pos; lia. }
  rewrite Hhalf.
  replace (Z.of_nat (S k) - 1) with (Z.succ (Z.of_nat k - 1)) in Hk by lia.
  destruct (Z.le_gt_cases 0 (Z.of_nat k - 1)) as [Hk0|Hk0].
  - rewrite Z.pow_succ_r in Hk by lia. apply Z.div_lt_upper_bound; lia.
  - assert (Z.of_nat k = 0) by lia.
    replace (Z.succ (Z.of_nat k - 1)) with 0 in Hk by lia.
    change (2 ^ 0) with 1 in Hk. lia.
Qed.

Lemma powMod_wf fuel a e m :
  (10 <= fuel)%nat -> wf a -> wf e -> wf m -> value m <> 0 ->
  Z.abs (value e) < 2 ^ (Z.of_nat fuel - 1) ->
  exists r, powMod fuel a e m = Ok r /\ wf r.
Proof.
  intros Hf Wa We Wm Hnz Hk. unfold powMod.
  destruct (isOne m).
  - exists (BigNum_of_ll 0). split; [reflexivity|apply canonical_wf; reflexivity].
  - destruct (mod_spec fuel a m Wa Wm Hnz Hf) as (base & -> & Wb & _). cbn [bind].
    apply powMod_loop_wf; try assumption. apply canonical_wf. reflexivity.
Qed.

(** [extendedGCD] returns well-formed numbers whatever the signs: one
    level of the recursion, given what the call below returns. *)
Lemma extendedGCD_rec_wf_step fuel k a b :
  (10 <= fuel)%nat -> wf a -> wf b -> value b <> 0 ->
  (forall r, wf r -> value r = value a mod Z.abs (value b) ->
     exists g x y, extendedGCD_rec fuel k b r = Ok (g, x, y) /\ wf g /\ wf x /\ wf y) ->
  exists g x y, extendedGCD_rec fuel (S k) a b = Ok (g, x, y) /\ wf g /\ wf x /\ wf y.
Proof.
  intros Hf Wa Wb E0 Hrec. cbn [extendedGCD_rec]. rewrite (isZero_value b Wb).
  destruct (Z.eqb_spec (value b) 0) as [|_]; [contradiction|].
  destruct (mod_spec fuel a b Wa Wb E0 Hf) as (r & -> & Wr & Vr). cbn [bind].
  destruct (Hrec r Wr Vr) as (g & x1 & y1 & -> & Wg & Wx1 & Wy1). cbn [bind].
  destruct (div_spec fuel a b Wa Wb E0 Hf) as (q & -> & Wq & _). cbn [bind].
  destruct (mul_spec q y1 Wq Wy1) as [Wm _].
  destruct (sub_spec fuel x1 _ Wx1 Wm ltac:(lia)) as (y & -> & Wy & _).
  cbn [bind]. exists g, y1, y. auto.
Qed.

(** After two levels the operands are non-negative and descending. *)
Lemma extendedGCD_rec_wf fuel k a b :
  (10 <= fuel)%nat -> wf a -> wf b ->
  value b * value b < 2 ^ (Z.of_nat k - 3) ->
  exists g x y, extendedGCD_rec fuel k a b = Ok (g, x, y) /\ wf g /\ wf x /\ wf y.
Proof.
  intros Hf Wa Wb Hk.
  assert (Hbase : forall k' a' b', wf a' -> value b' = 0 -> wf b' ->
            exists g x y, extendedGCD_rec fuel (S k') a' b' = Ok (g, x, y)
                          /\ wf g /\ wf x /\ wf y).
  { intros k' a' b' Wa' E0 Wb'. cbn [extendedGCD_rec].
    rewrite (isZero_value b' Wb'), E0. cbn [Z.eqb].
    exists a', (BigNum_of_ll 1), (BigNum_of_ll 0). split; [reflexivity|].
    split; [exact Wa'|]. split; apply canonical_wf; reflexivity. }
  destruct k as [|[|k]].
  { change (Z.of_nat 0 - 3) with (-3) in Hk. rewrite Z.pow_neg_r in Hk by lia. nia. }
  { change (Z.of_nat 1 - 3) with (-2) in Hk. rewrite Z.pow_neg_r in Hk by lia. nia. }
  replace (Z.of_nat (S (S k)) - 3) with (Z.of_nat k - 1) in Hk by lia.
  destruct (Z.eq_dec (value b) 0) as [E0|E0]; [apply Hbase; assumption|].
  apply extendedGCD_rec_wf_step; try assumption.
  intros r1 W1 V1.
  pose proof (Z.mod_pos_bound (value a) (Z.abs (value b)) ltac:(lia)) as H1.
  destruct (Z.eq_dec (value r1) 0) as [E1|E1]; [apply Hbase; assumption|].
  apply extendedGCD_rec_wf_step; try assumption.
  intros r2 W2 V2. rewrite (Z.abs_eq (value r1)) in V2 by lia.
  pose proof (Z.mod_pos_bound (value b) (value r1) ltac:(lia)) as H2.
  destruct (extendedGCD_rec_desc fuel Hf k r1 r2 W1 W2 ltac:(lia))
    as (g & x & y & E & Wg & Wx & Wy & _).
  - assert (value r1 * value r2 <= Z.abs (value b) * Z.abs (value b)) by nia.
    assert (Z.abs (value b) * Z.abs (value b) = value b * value b) by nia. lia.
  - exists g, x, y. auto.
Qed.

Lemma modInverse_wf fuel a m :
  (10 <= fuel)%nat -> wf a -> wf m -> value m <> 0 ->
  value m * value m < 2 ^ (Z.of_nat fuel - 3) ->
  modInverse fuel a m = Throw NoInverse \/
  exists r, modInverse fuel a m = Ok r /\ wf r.
Proof.
  intros Hf Wa Wm Hnz Hk. unfold modInverse.
  destruct (mod_spec fuel a m Wa Wm Hnz Hf) as (r & -> & Wr & _). cbn [bind].
  destruct (extendedGCD_rec_wf fuel fuel r m Hf Wr Wm Hk) as (g & x & y & E & Wg & Wx & Wy).
  unfold extendedGCD. rewrite E. cbn [bind].
  destruct (isOne g); cbn [negb]; [|left; reflexivity]. right.
  destruct (mod_spec fuel x m Wx Wm Hnz Hf) as (res & -> & Wres & Vres). cbn [bind].
  pose proof (Z.mod_pos_bound (value x) (Z.abs (value m)) ltac:(lia)) as Hres.
  rewrite (wf_nonneg_value res Wres).
  destruct (Z.ltb_spec (value res) 0); [lia|]. exists res. auto.
Qed.

(** Canonical form is kept by the string constructor, by the constructor
    from every [long long] above the most negative one, by unary minus and
    by every operator on canonical operands, given the fuel to return. *)
Lemma canonical_preserved (fuel : nat) (a b m : BigNum) :
  canonical a = true -> canonical b = true -> canonical m = true ->
  (10 <= fuel)%nat ->
  (forall s, canonical (BigNum_of_string s) = true) /\
  (forall n, LLONG_MIN < n <= LLONG_MAX -> canonical (BigNum_of_ll n) = true) /\
  canonical (neg a) = true /\
  canonical (mul a b) = true /\
  (exists r, add fuel a b = Ok r /\ canonical r = true) /\
  (exists r, sub fuel a b = Ok r /\ canonical r = true) /\
  (isZero b = false -> exists r, div fuel a b = Ok r /\ canonical r = true) /\
  (isZero b = false -> exists r, mod_ fuel a b = Ok r /\ canonical r = true) /\
  (isZero m = false -> exists r, addMod fuel a b m = Ok r /\ canonical r = true) /\
  (isZero m = false -> exists r, mulMod fuel a b m = Ok r /\ canonical r = true) /\
  (isZero m = false -> Z.abs (value b) < 2 ^ (Z.of_nat fuel - 1) ->
   exists r, powMod fuel a b m = Ok r /\ canonical r = true) /\
  (isZero m = false -> value m * value m < 2 ^ (Z.of_nat fuel - 3) ->
   modInverse fuel a m = Throw NoInverse \/
   exists r, modInverse fuel a m = Ok r /\ canonical r = true).
Proof.
  intros Ca Cb Cm Hf. apply canonical_wf in Ca, Cb, Cm.
  assert (R : forall x z, returns x z -> exists r, x = Ok r /\ canonical r = true).
  { intros x z (r & E & W & _). exists r. split; [exact E|apply canonical_wf, W]. }
  split; [intros s; apply canonical_wf, BigNum_of_string_wf|].
  split; [intros n Hn; apply canonical_wf, BigNum_of_ll_spec, Hn|].
  split; [apply canonical_wf, neg_wf, Ca|].
  split; [apply canonical_wf, mul_spec; assumption|].
  split; [eapply R, add_spec; (assumption || lia)|].
  split; [eapply R, sub_spec; (assumption || lia)|].
  split; [intros Hz; eapply R, div_spec; auto using wf_value_nonzero|].
  split; [intros Hz; eapply R, mod_spec; auto using wf_value_nonzero|].
  split; [intros Hz; eapply R, addMod_spec; auto using wf_value_nonzero|].
  split; [intros Hz; eapply R, mulMod_spec; auto using wf_value_nonzero|].
  split.
  - intros Hz Hk.
    destruct (powMod_wf fuel a b m Hf Ca Cb Cm (wf_value_nonzero m Cm Hz) Hk) as (r & E & W).
    exists r. split; [exact E|apply canonical_wf, W].
  - intros Hz Hk.
    destruct (modInverse_wf fuel a m Hf Ca Cm (wf_value_nonzero m Cm Hz) Hk)
      as [E|(r & E & W)]; [left; exact E|right].
    exists r. split; [exact E|apply canonical_wf, W].
Qed.

(** C8 fails on the code at one input: [BigNum(LLONG_MIN)].  Negating the
    most negative [long long] gives it back, so the digit loop never runs
    and the digit vector stays empty, with the sign flag set. *)
Theorem C8_llong_min_not_canonical :
  BigNum_of_ll LLONG_MIN = mkBigNum [] true /\
  canonical (BigNum_of_ll LLONG_MIN) = false /\
  isZero (BigNum_of_ll LLONG_MIN) = false /\
  toString (BigNum_of_ll LLONG_MIN) = "-"%string.
Proof. repeat split; vm_compute; reflexivity. Qed.

(** C9: addition and multiplication of canonical numbers commute: both
    orders return, and [operator==] holds between the results. *)
Theorem C9_add_mul_commutative (fuel : nat) (a b : BigNum) :
  canonical a = true -> canonical b = true -> (4 <= fuel)%nat ->
  (exists s1 s2,
     add fuel a b = Ok s1 /\ add fuel b a = Ok s2 /\ eqb s1 s2 = true) /\
  eqb (mul a b) (mul b a) = true.
Proof.
  intros Ca Cb Hf. apply canonical_wf in Ca, Cb. split.
  - pose proof (add_spec fuel a b Ca Cb Hf) as H1.
    pose proof (add_spec fuel b a Cb Ca Hf) as H2.
    rewrite (Z.add_comm (value b)) in H2.
    destruct (returns_same _ _ _ H1 H2) as (r & E1 & E2 & _).
    exists r, r. split; [exact E1|]. split; [exact E2|]. apply eqb_eq. reflexivity.
  - destruct (mul_spec a b Ca Cb) as [W1 V1]. destruct (mul_spec b a Cb Ca) as [W2 V2].
    apply eqb_eq, value_inj; try assumption. lia.
Qed.

Lemma C9_witness :
  (exists s1 s2,
     add 4 (mkBigNum [5; 9] true) (mkBigNum [7; 0; 1] false) = Ok s1 /\
     add 4 (mkBigNum [7; 0; 1] false) (mkBigNum [5; 9] true) = Ok s2 /\
     eqb s1 s2 = true) /\
  eqb (mul (mkBigNum [5; 9] true) (mkBigNum [7; 0; 1] false))
      (mul (mkBigNum [7; 0; 1] false) (mkBigNum [5; 9] true)) = true.
Proof.
  apply (C9_add_mul_commutative 4 (mkBigNum [5; 9] true) (mkBigNum [7; 0; 1] false));
    [reflexivity|reflexivity|lia].
Defined.

(** C10: for a negative exponent and a modulus of at least 1, with enough
    fuel for the exponent's bits, [powMod] returns, and returns what it
    returns for the negated exponent. *)
Theorem C10_powMod_negative_exponent (fuel : nat) (base e m : BigNum) :
  canonical base = true -> canonical e = true -> canonical m = true ->
  is_negative e = true -> 1 <= value m ->
  (10 <= fuel)%nat -> Z.abs (value e) < 2 ^ (Z.of_nat fuel - 1) ->
  exists r,
    powMod fuel base e m = Ok r /\
    powMod fuel base (neg e) m = Ok r /\
    canonical r = true /\
    value r = value base ^ (- value e) mod value m.
Proof.
  intros Cb Ce Cm Ne Hm Hf Hk. apply canonical_wf in Cb, Ce, Cm.
  rewrite (wf_nonneg_value e Ce) in Ne. apply Z.ltb_lt in Ne.
  pose proof (powMod_spec fuel base e m Cb Ce Cm ltac:(lia) ltac:(lia) Hf Hk) as H1.
  pose proof (powMod_spec fuel base (neg e) m Cb (neg_wf e Ce) Cm ltac:(lia) ltac:(lia) Hf) as H2.
  rewrite (neg_value e Ce), Z.abs_opp in H2. specialize (H2 Hk).
  destruct (returns_same _ _ _ H1 H2) as (r & E1 & E2 & W & V).
  exists r. split; [exact E1|]. split; [exact E2|]. split; [apply canonical_wf, W|].
  rewrite V. rewrite (Z.abs_neq (value e)), (Z.abs_eq (value m)) by lia. reflexivity.
Qed.

Lemma C10_witness :
  exists r,
    powMod 12 (mkBigNum [3] false) (mkBigNum [3; 1] true) (mkBigNum [7; 1] false) = Ok r /\
    powMod 12 (mkBigNum [3] false) (neg (mkBigNum [3; 1] true)) (mkBigNum [7; 1] false) = Ok r /\
    canonical r = true /\
    value r = value (mkBigNum [3] false) ^ (- value (mkBigNum [3; 1] true))
              mod value (mkBigNum [7; 1] false).
Proof.
  apply (C10_powMod_negative_exponent 12 (mkBigNum [3] false) (mkBigNum [3; 1] true)
           (mkBigNum [7; 1] false));
    [reflexivity|reflexivity|reflexivity|reflexivity|vm_compute; discriminate|lia
    |vm_compute; reflexivity].
Defined.

(** * Further properties of the code *)

(** ** Representation, constructors, comparison *)

Lemma pop_zeros_length r : (length (pop_zeros r) <= length r)%nat.
Proof.
  induction r as [|d r IH]; [reflexivity|].
  destruct r as [|e r]; [reflexivity|].
  change (pop_zeros (d :: e :: r)) with (if d =? 0 then pop_zeros (e :: r) else d :: e :: r).
  destruct (d =? 0); [|reflexivity]. cbn [length] in *. lia.
Qed.

(** [removeLeadingZeros] on a non-empty vector keeps the magnitude, leaves
    no leading zero and at least one digit, never grows the vector, and
    has nothing left to do when run again. *)
Theorem removeLeadingZeros_normalizes (ds : list Z) :
  (0 < length ds)%nat ->
  dval (removeLeadingZeros ds) = dval ds /\
  msd_okb (rev (removeLeadingZeros ds)) = true /\
  (0 < length (removeLeadingZeros ds) <= length ds)%nat /\
  removeLeadingZeros (removeLeadingZeros ds) = removeLeadingZeros ds.
Proof.
  intros Hlen. assert (Hne : ds <> []) by (destruct ds; [simpl in Hlen; lia|discriminate]).
  pose proof (removeLeadingZeros_msd ds Hne) as M.
  split; [apply removeLeadingZeros_value|]. split; [exact M|]. split.
  - split.
    + apply msd_okb_nonnil in M. destruct (removeLeadingZeros ds); [congruence|simpl; lia].
    + unfold removeLeadingZeros. rewrite length_rev.
      rewrite <- (length_rev ds). apply pop_zeros_length.
  - apply removeLeadingZeros_id, M.
Qed.

Lemma removeLeadingZeros_normalizes_witness :
  dval (removeLeadingZeros [5; 0; 3; 0; 0]) = dval [5; 0; 3; 0; 0] /\
  msd_okb (rev (removeLeadingZeros [5; 0; 3; 0; 0])) = true /\
  (0 < length (removeLeadingZeros [5; 0; 3; 0; 0]%Z) <= length [5; 0; 3; 0; 0]%Z)%nat /\
  removeLeadingZeros (removeLeadingZeros [5; 0; 3; 0; 0]) = removeLeadingZeros [5; 0; 3; 0; 0].
Proof. apply (removeLeadingZeros_normalizes [5; 0; 3; 0; 0]). simpl. lia. Defined.

(** Whatever the text, the string constructor builds a canonical number. *)
Theorem string_constructor_canonical (s : string) :
  canonical (BigNum_of_string s) = true.
Proof. apply canonical_wf, BigNum_of_string_wf. Qed.

(** The digit loop of the string constructor, in one piece: the digit
    characters of the scanned range, last first. *)
Lemma parse_loop_filter k : forall start str acc,
  (start + k <= length str)%nat ->
  parse_loop k start str acc
  = acc ++ map digit_of_char (List.filter is_digit_char (rev (take k (drop start str)))).
Proof.
  induction k as [|k IH]; intros start str acc Hk.
  - rewrite take_0. cbn. rewrite app_nil_r. reflexivity.
  - cbn [parse_loop]. rewrite IH by lia.
    assert (Hl : drop start str !! k = Some (nth (start + k) str zero)).
    { rewrite lookup_drop. rewrite nth_lookup.
      destruct (str !! (start + k)%nat) eqn:E; [reflexivity|].
      apply lookup_ge_None in E. lia. }
    rewrite (take_S_r _ _ _ Hl), rev_app_distr. cbn [rev app List.filter].
    destruct (is_digit_char (nth (start + k) str zero)).
    + cbn [map]. rewrite <- app_assoc. reflexivity.
    + reflexivity.
Qed.

(** The digits the string constructor reads from a non-empty text. *)
Lemma BigNum_of_string_digits c0 cs :
  BigNum_of_string (string_of_list_ascii (c0 :: cs)) =
  let neg := Ascii.eqb c0 "-"%char in
  let ds := map digit_of_char
              (List.filter is_digit_char (rev (if neg then cs else c0 :: cs))) in
  let '(ds, neg) := match ds with [] => ([0], false) | _ => (ds, neg) end in
  mkBigNum (removeLeadingZeros ds)
           (if isZero_digits (removeLeadingZeros ds) then false else neg).
Proof.
  unfold BigNum_of_string. rewrite list_ascii_of_string_of_list_ascii.
  cbv zeta. rewrite parse_loop_filter.
  - cbn [app]. destruct (Ascii.eqb c0 "-").
    + cbn [length]. replace (S (length cs) - 1)%nat with (length cs) by lia.
      change (drop 1 (c0 :: cs)) with cs. rewrite take_ge by lia. reflexivity.
    + rewrite Nat.sub_0_r, drop_0, take_ge by lia. reflexivity.
  - destruct (Ascii.eqb c0 "-"); cbn [length]; lia.
Qed.

(** Characters that are not digits are skipped: dropping them from the
    text after its first character changes nothing. *)
Theorem string_constructor_skips_non_digits (c0 : ascii) (cs : list ascii) :
  BigNum_of_string (string_of_list_ascii (c0 :: cs)) =
  BigNum_of_string (string_of_list_ascii (c0 :: List.filter is_digit_char cs)).
Proof.
  rewrite !BigNum_of_string_digits. cbv zeta.
  assert (E : forall l : list ascii,
            List.filter is_digit_char (rev (List.filter is_digit_char l))
            = List.filter is_digit_char (rev l)).
  { intros l. rewrite !List.filter_rev. f_equal.
    induction l as [|c l IH]; [reflexivity|]. cbn [List.filter].
    destruct (is_digit_char c) eqn:Ec; [|exact IH].
    cbn [List.filter]. rewrite Ec, IH. reflexivity. }
  destruct (Ascii.eqb c0 "-").
  - rewrite E. reflexivity.
  - cbn [rev]. rewrite !List.filter_app, E. reflexivity.
Qed.

(** A text with no digit character, the empty text and a lone sign
    included, is read as the non-negative zero. *)
Theorem string_constructor_no_digit_is_zero (s : string) :
  forallb (fun c => negb (is_digit_char c)) (list_ascii_of_string s) = true ->
  BigNum_of_string s = mkBigNum [0] false.
Proof.
  intros H. rewrite <- (string_of_list_ascii_of_string s).
  destruct (list_ascii_of_string s) as [|c0 cs] eqn:Es; [reflexivity|].
  rewrite BigNum_of_string_digits. cbv zeta.
  assert (F : forall l, forallb (fun c => negb (is_digit_char c)) l = true ->
                        List.filter is_digit_char (rev l) = []).
  { intros l Hl. rewrite List.filter_rev.
    induction l as [|c l IH]; [reflexivity|]. cbn [forallb] in Hl.
    apply andb_true_iff in Hl as [Hc Hl]. apply negb_true_iff in Hc.
    cbn [List.filter]. rewrite Hc. apply IH, Hl. }
  cbn [forallb] in H. pose proof H as H'. apply andb_true_iff in H' as [Hc0 Hcs].
  destruct (Ascii.eqb c0 "-").
  - rewrite (F cs Hcs). reflexivity.
  - rewrite (F (c0 :: cs) H). reflexivity.
Qed.

Lemma string_constructor_no_digit_is_zero_witness :
  BigNum_of_string "-x y-" = mkBigNum [0] false.
Proof. apply (string_constructor_no_digit_is_zero "-x y-"). reflexivity. Defined.

(** Every [long long] but the most negative one is converted to the
    canonical number of the same value. *)
Theorem long_long_constructor_value (n : Z) :
  LLONG_MIN < n <= LLONG_MAX ->
  canonical (BigNum_of_ll n) = true /\ value (BigNum_of_ll n) = n.
Proof.
  intros Hn. destruct (BigNum_of_ll_spec n Hn) as [W V].
  split; [apply canonical_wf, W|exact V].
Qed.

Lemma long_long_constructor_value_witness :
  canonical (BigNum_of_ll (-9223372036854775807)) = true /\
  value (BigNum_of_ll (-9223372036854775807)) = -9223372036854775807.
Proof.
  apply (long_long_constructor_value (-9223372036854775807)).
  unfold LLONG_MIN, LLONG_MAX. lia.
Defined.

Lemma le_spec fuel a b :
  wf a -> wf b -> (2 <= fuel)%nat -> le fuel a b = Ok (value a <=? value b).
Proof.
  intros Wa Wb Hf. unfold le. rewrite lt_spec by assumption. cbn [bind].
  rewrite (eqb_value a b Wa Wb).
  destruct (Z.ltb_spec (value a) (value b)), (Z.eqb_spec (value a) (value b)),
    (Z.leb_spec (value a) (value b)); lia || reflexivity.
Qed.

(** On canonical numbers the six comparison operators decide the order
    of the integers they stand for. *)
Theorem comparison_operators_value (fuel : nat) (a b : BigNum) :
  canonical a = true -> canonical b = true -> (2 <= fuel)%nat ->
  lt fuel a b = Ok (value a <? value b) /\
  le fuel a b = Ok (value a <=? value b) /\
  gt fuel a b = Ok (value b <? value a) /\
  ge fuel a b = Ok (value b <=? value a) /\
  eqb a b = (value a =? value b) /\
  ne a b = negb (value a =? value b).
Proof.
  intros Ca Cb Hf. apply canonical_wf in Ca, Cb.
  split; [apply lt_spec; assumption|].
  split; [apply le_spec; assumption|].
  split.
  { unfold gt. rewrite le_spec by assumption. cbn [bind]. f_equal.
    destruct (Z.leb_spec (value a) (value b)), (Z.ltb_spec (value b) (value a));
      lia || reflexivity. }
  split; [apply ge_spec; assumption|].
  split; [apply eqb_value; assumption|].
  unfold ne. rewrite eqb_value by assumption. reflexivity.
Qed.

Lemma comparison_operators_value_witness :
  lt 2 (mkBigNum [0; 2] true) (mkBigNum [9; 1] true)
    = Ok (value (mkBigNum [0; 2] true) <? value (mkBigNum [9; 1] true)) /\
  le 2 (mkBigNum [0; 2] true) (mkBigNum [9; 1] true)
    = Ok (value (mkBigNum [0; 2] true) <=? value (mkBigNum [9; 1] true)) /\
  gt 2 (mkBigNum [0; 2] true) (mkBigNum [9; 1] true)
    = Ok (value (mkBigNum [9; 1] true) <? value (mkBigNum [0; 2] true)) /\
  ge 2 (mkBigNum [0; 2] true) (mkBigNum [9; 1] true)
    = Ok (value (mkBigNum [9; 1] true) <=? value (mkBigNum [0; 2] true)) /\
  eqb (mkBigNum [0; 2] true) (mkBigNum [9; 1] true)
    = (value (mkBigNum [0; 2] true) =? value (mkBigNum [9; 1] true)) /\
  ne (mkBigNum [0; 2] true) (mkBigNum [9; 1] true)
    = negb (value (mkBigNum [0; 2] true) =? value (mkBigNum [9; 1] true)).
Proof.
  apply (comparison_operators_value 2 (mkBigNum [0; 2] true) (mkBigNum [9; 1] true));
    [reflexivity|reflexivity|lia].
Defined.

(** On canonical numbers [isZero] and [isOne] test the value. *)
Theorem isZero_isOne_value (a : BigNum) :
  canonical a = true ->
  isZero a = (value a =? 0) /\ isOne a = (value a =? 1).
Proof.
  intros Ca. apply canonical_wf in Ca.
  split; [apply isZero_value, Ca|apply isOne_value, Ca].
Qed.

Lemma isZero_isOne_value_witness :
  isZero (mkBigNum [1] true) = (value (mkBigNum [1] true) =? 0) /\
  isOne (mkBigNum [1] true) = (value (mkBigNum [1] true) =? 1).
Proof. apply (isZero_isOne_value (mkBigNum [1] true)). reflexivity. Defined.

(** Unary minus keeps canonical form, negates the value and undoes
    itself; zero is its own negation. *)
Theorem unary_minus_value (a : BigNum) :
  canonical a = true ->
  canonical (neg a) = true /\ value (neg a) = - value a /\ neg (neg a) = a.
Proof.
  intros Ca. apply canonical_wf in Ca.
  split; [apply canonical_wf, neg_wf, Ca|]. split; [apply neg_value, Ca|].
  apply value_inj; [apply neg_wf, neg_wf, Ca|exact Ca|].
  rewrite !neg_value by auto using neg_wf. lia.
Qed.

Lemma unary_minus_value_witness :
  canonical (neg (mkBigNum [0; 4] false)) = true /\
  value (neg (mkBigNum [0; 4] false)) = - value (mkBigNum [0; 4] false) /\
  neg (neg (mkBigNum [0; 4] false)) = mkBigNum [0; 4] false.
Proof. apply (unary_minus_value (mkBigNum [0; 4] false)). reflexivity. Defined.

(** ** Arithmetic *)

Lemma returns_canonical x z :
  returns x z -> exists r, x = Ok r /\ canonical r = true /\ value r = z.
Proof. intros (r & E & W & V). exists r. split; [exact E|]. split; [apply canonical_wf, W|exact V]. Qed.

(** [operator+] on canonical numbers returns the canonical sum. *)
Theorem addition_value (fuel : nat) (a b : BigNum) :
  canonical a = true -> canonical b = true -> (4 <= fuel)%nat ->
  exists r, add fuel a b = Ok r /\ canonical r = true /\ value r = value a + value b.
Proof.
  intros Ca Cb Hf. apply canonical_wf in Ca, Cb.
  apply returns_canonical, add_spec; assumption.
Qed.

Lemma addition_value_witness :
  exists r, add 4 (mkBigNum [9; 9] true) (mkBigNum [1; 0; 1] false) = Ok r /\
            canonical r = true /\
            value r = value (mkBigNum [9; 9] true) + value (mkBigNum [1; 0; 1] false).
Proof.
  apply (addition_value 4 (mkBigNum [9; 9] true) (mkBigNum [1; 0; 1] false));
    [reflexivity|reflexivity|lia].
Defined.

(** [operator-] on canonical numbers returns the canonical difference. *)
Theorem subtraction_value (fuel : nat) (a b : BigNum) :
  canonical a = true -> canonical b = true -> (5 <= fuel)%nat ->
  exists r, sub fuel a b = Ok r /\ canonical r = true /\ value r = value a - value b.
Proof.
  intros Ca Cb Hf. apply canonical_wf in Ca, Cb.
  apply returns_canonical, sub_spec; assumption.
Qed.

Lemma subtraction_value_witness :
  exists r, sub 5 (mkBigNum [3] true) (mkBigNum [0] false) = Ok r /\
            canonical r = true /\
            value r = value (mkBigNum [3] true) - value (mkBigNum [0] false).
Proof.
  apply (subtraction_value 5 (mkBigNum [3] true) (mkBigNum [0] false));
    [reflexivity|reflexivity|lia].
Defined.



(** [operator/] by a non-zero canonical divisor returns the canonical
    quotient truncated towards zero. *)
Theorem division_truncates (fuel : nat) (a b : BigNum) :
  canonical a = true -> canonical b = true -> isZero b = false ->
  (10 <= fuel)%nat ->
  exists q, div fuel a b = Ok q /\ canonical q = true /\
            value q = Z.quot (value a) (value b).
Proof.
  intros Ca Cb Hz Hf. apply canonical_wf in Ca, Cb.
  apply returns_canonical, div_spec; auto using wf_value_nonzero.
Qed.

Lemma division_truncates_witness :
  exists q, div 10 (mkBigNum [9; 9] true) (mkBigNum [0; 1] false) = Ok q /\
            canonical q = true /\
            value q = Z.quot (value (mkBigNum [9; 9] true)) (value (mkBigNum [0; 1] false)).
Proof.
  apply (division_truncates 10 (mkBigNum [9; 9] true) (mkBigNum [0; 1] false));
    [reflexivity|reflexivity|reflexivity|lia].
Defined.

(** [operator%] by a non-zero canonical divisor returns the least
    non-negative residue of [a] modulo [|b|]; the sign of the divisor
    does not matter. *)
Theorem modulo_value (fuel : nat) (a b : BigNum) :
  canonical a = true -> canonical b = true -> isZero b = false ->
  (10 <= fuel)%nat ->
  exists r, mod_ fuel a b = Ok r /\ mod_ fuel a (neg b) = Ok r /\
            canonical r = true /\ value r = value a mod Z.abs (value b).
Proof.
  intros Ca Cb Hz Hf. apply canonical_wf in Ca, Cb.
  pose proof (wf_value_nonzero b Cb Hz) as Hnz.
  pose proof (mod_spec fuel a b Ca Cb Hnz Hf) as H1.
  pose proof (mod_spec fuel a (neg b) Ca (neg_wf b Cb)) as H2.
  rewrite (neg_value b Cb), Z.abs_opp in H2. specialize (H2 ltac:(lia) Hf).
  destruct (returns_same _ _ _ H1 H2) as (r & E1 & E2 & W & V).
  exists r. split; [exact E1|]. split; [exact E2|]. split; [apply canonical_wf, W|exact V].
Qed.

Lemma modulo_value_witness :
  exists r, mod_ 10 (mkBigNum [7; 1] true) (mkBigNum [5] false) = Ok r /\
            mod_ 10 (mkBigNum [7; 1] true) (neg (mkBigNum [5] false)) = Ok r /\
            canonical r = true /\
            value r = value (mkBigNum [7; 1] true) mod Z.abs (value (mkBigNum [5] false)).
Proof.
  apply (modulo_value 10 (mkBigNum [7; 1] true) (mkBigNum [5] false));
    [reflexivity|reflexivity|reflexivity|lia].
Defined.

Lemma returns_is x r : returns x (value r) -> wf r -> x = Ok r.
Proof.
  intros (r' & E & W & V) Wr. rewrite E. f_equal. apply value_inj; assumption.
Qed.

(** Subtraction undoes addition, a number plus its negation is zero,
    and [a - b] is [a + (-b)]. *)
Theorem subtraction_undoes_addition (fuel : nat) (a b : BigNum) :
  canonical a = true -> canonical b = true -> (5 <= fuel)%nat ->
  (exists s, add fuel a b = Ok s /\ sub fuel s b = Ok a) /\
  add fuel a (neg a) = Ok (mkBigNum [0] false) /\
  sub fuel a a = Ok (mkBigNum [0] false) /\
  sub fuel a b = add fuel a (neg b).
Proof.
  intros Ca Cb Hf. apply canonical_wf in Ca, Cb.
  assert (W0 : wf (mkBigNum [0] false)) by (apply canonical_wf; reflexivity).
  split; [|split; [|split]].
  - destruct (add_spec fuel a b Ca Cb ltac:(lia)) as (s & Es & Ws & Vs).
    exists s. split; [exact Es|]. apply returns_is; [|exact Ca].
    replace (value a) with (value s - value b) by lia. apply sub_spec; assumption.
  - apply returns_is; [|exact W0].
    replace (value (mkBigNum [0] false)) with (value a + value (neg a))
      by (rewrite neg_value by exact Ca; change (value (mkBigNum [0] false)) with 0; lia).
    apply add_spec; auto using neg_wf. lia.
  - apply returns_is; [|exact W0].
    replace (value (mkBigNum [0] false)) with (value a - value a)
      by (change (value (mkBigNum [0] false)) with 0; lia).
    apply sub_spec; assumption.
  - pose proof (sub_spec fuel a b Ca Cb Hf) as H1.
    pose proof (add_spec fuel a (neg b) Ca (neg_wf b Cb) ltac:(lia)) as H2.
    rewrite (neg_value b Cb) in H2.
    replace (value a + - value b) with (value a - value b) in H2 by lia.
    destruct (returns_same _ _ _ H1 H2) as (r & E1 & E2 & _). congruence.
Qed.

Lemma subtraction_undoes_addition_witness :
  (exists s, add 5 (mkBigNum [5; 2] true) (mkBigNum [5; 2] false) = Ok s /\
             sub 5 s (mkBigNum [5; 2] false) = Ok (mkBigNum [5; 2] true)) /\
  add 5 (mkBigNum [5; 2] true) (neg (mkBigNum [5; 2] true)) = Ok (mkBigNum [0] false) /\
  sub 5 (mkBigNum [5; 2] true) (mkBigNum [5; 2] true) = Ok (mkBigNum [0] false) /\
  sub 5 (mkBigNum [5; 2] true) (mkBigNum [5; 2] false)
  = add 5 (mkBigNum [5; 2] true) (neg (mkBigNum [5; 2] false)).
Proof.
  apply (subtraction_undoes_addition 5 (mkBigNum [5; 2] true) (mkBigNum [5; 2] false));
    [reflexivity|reflexivity|lia].
Defined.

(** Division undoes multiplication by a non-zero number, and leaves no
    remainder. *)
Theorem division_undoes_multiplication (fuel : nat) (a b : BigNum) :
  canonical a = true -> canonical b = true -> isZero b = false ->
  (10 <= fuel)%nat ->
  div fuel (mul a b) b = Ok a /\
  mod_ fuel (mul a b) b = Ok (mkBigNum [0] false).
Proof.
  intros Ca Cb Hz Hf. apply canonical_wf in Ca, Cb.
  pose proof (wf_value_nonzero b Cb Hz) as Hnz.
  destruct (mul_spec a b Ca Cb) as [Wm Vm].
  assert (W0 : wf (mkBigNum [0] false)) by (apply canonical_wf; reflexivity).
  split.
  - apply returns_is; [|exact Ca].
    replace (value a) with (Z.quot (value (mul a b)) (value b))
      by (rewrite Vm; apply Z.quot_mul; exact Hnz).
    apply div_spec; assumption.
  - apply returns_is; [|exact W0].
    replace (value (mkBigNum [0] false)) with (value (mul a b) mod Z.abs (value b)).
    + apply mod_spec; assumption.
    + rewrite Vm. change (value (mkBigNum [0] false)) with 0.
      apply Z.mod_divide; [lia|].
      destruct (Z.abs_spec (value b)) as [[_ ->]|[_ ->]].
      * apply Z.divide_factor_r.
      * apply Z.divide_opp_l, Z.divide_factor_r.
Qed.

Lemma division_undoes_multiplication_witness :
  div 10 (mul (mkBigNum [2; 4] true) (mkBigNum [7; 1] true)) (mkBigNum [7; 1] true)
    = Ok (mkBigNum [2; 4] true) /\
  mod_ 10 (mul (mkBigNum [2; 4] true) (mkBigNum [7; 1] true)) (mkBigNum [7; 1] true)
    = Ok (mkBigNum [0] false).
Proof.
  apply (division_undoes_multiplication 10 (mkBigNum [2; 4] true) (mkBigNum [7; 1] true));
    [reflexivity|reflexivity|reflexivity|lia].
Defined.

(** ** The modular layer *)

(** [addMod] and [mulMod] with a non-zero modulus return the least
    non-negative residue of the sum and of the product modulo [|m|]. *)
Theorem addMod_mulMod_value (fuel : nat) (a b m : BigNum) :
  canonical a = true -> canonical b = true -> canonical m = true ->
  isZero m = false -> (10 <= fuel)%nat ->
  (exists s, addMod fuel a b m = Ok s /\ canonical s = true /\
             value s = (value a + value b) mod Z.abs (value m)) /\
  (exists p, mulMod fuel a b m = Ok p /\ canonical p = true /\
             value p = (value a * value b) mod Z.abs (value m)).
Proof.
  intros Ca Cb Cm Hz Hf. apply canonical_wf in Ca, Cb, Cm.
  pose proof (wf_value_nonzero m Cm Hz) as Hnz.
  split; [apply returns_canonical, addMod_spec|apply returns_canonical, mulMod_spec];
    assumption.
Qed.

Lemma addMod_mulMod_value_witness :
  (exists s, addMod 10 (mkBigNum [8] true) (mkBigNum [3] false) (mkBigNum [7] true) = Ok s /\
             canonical s = true /\
             value s = (value (mkBigNum [8] true) + value (mkBigNum [3] false))
                       mod Z.abs (value (mkBigNum [7] true))) /\
  (exists p, mulMod 10 (mkBigNum [8] true) (mkBigNum [3] false) (mkBigNum [7] true) = Ok p /\
             canonical p = true /\
             value p = (value (mkBigNum [8] true) * value (mkBigNum [3] false))
                       mod Z.abs (value (mkBigNum [7] true))).
Proof.
  apply (addMod_mulMod_value 10 (mkBigNum [8] true) (mkBigNum [3] false) (mkBigNum [7] true));
    [reflexivity|reflexivity|reflexivity|reflexivity|lia].
Defined.

(** Reducing the operands first changes neither [addMod] nor [mulMod]. *)
Theorem modular_operands_may_be_reduced (fuel : nat) (a b m : BigNum) :
  canonical a = true -> canonical b = true -> canonical m = true ->
  isZero m = false -> (10 <= fuel)%nat ->
  exists a' b',
    mod_ fuel a m = Ok a' /\ mod_ fuel b m = Ok b' /\
    addMod fuel a' b' m = addMod fuel a b m /\
    mulMod fuel a' b' m = mulMod fuel a b m.
Proof.
  intros Ca Cb Cm Hz Hf. apply canonical_wf in Ca, Cb, Cm.
  pose proof (wf_value_nonzero m Cm Hz) as Hnz.
  destruct (mod_spec fuel a m Ca Cm Hnz Hf) as (a' & Ea & Wa & Va).
  destruct (mod_spec fuel b m Cb Cm Hnz Hf) as (b' & Eb & Wb & Vb).
  exists a', b'. split; [exact Ea|]. split; [exact Eb|]. split.
  - pose proof (addMod_spec fuel a' b' m Wa Wb Cm Hnz Hf) as H1.
    pose proof (addMod_spec fuel a b m Ca Cb Cm Hnz Hf) as H2.
    rewrite Va, Vb, <- Z.add_mod in H1 by lia.
    destruct (returns_same _ _ _ H1 H2) as (r & E1 & E2 & _). congruence.
  - pose proof (mulMod_spec fuel a' b' m Wa Wb Cm Hnz Hf) as H1.
    pose proof (mulMod_spec fuel a b m Ca Cb Cm Hnz Hf) as H2.
    rewrite Va, Vb, <- Z.mul_mod in H1 by lia.
    destruct (returns_same _ _ _ H1 H2) as (r & E1 & E2 & _). congruence.
Qed.

Lemma modular_operands_may_be_reduced_witness :
  exists a' b',
    mod_ 10 (mkBigNum [5; 2] true) (mkBigNum [7] false) = Ok a' /\
    mod_ 10 (mkBigNum [0; 4] false) (mkBigNum [7] false) = Ok b' /\
    addMod 10 a' b' (mkBigNum [7] false)
      = addMod 10 (mkBigNum [5; 2] true) (mkBigNum [0; 4] false) (mkBigNum [7] false) /\
    mulMod 10 a' b' (mkBigNum [7] false)
      = mulMod 10 (mkBigNum [5; 2] true) (mkBigNum [0; 4] false) (mkBigNum [7] false).
Proof.
  apply (modular_operands_may_be_reduced 10 (mkBigNum [5; 2] true) (mkBigNum [0; 4] false)
           (mkBigNum [7] false));
    [reflexivity|reflexivity|reflexivity|reflexivity|lia].
Defined.

(** [powMod] with any non-zero modulus and any exponent returns a
    canonical number; unless the modulus is -1 it is the residue of
    [base ^ |e|] modulo [|m|], so neither sign matters. *)
Theorem powMod_any_sign (fuel : nat) (base e m : BigNum) :
  canonical base = true -> canonical e = true -> canonical m = true ->
  isZero m = false -> (10 <= fuel)%nat ->
  Z.abs (value e) < 2 ^ (Z.of_nat fuel - 1) ->
  exists r, powMod fuel base e m = Ok r /\ canonical r = true /\
            (value m <> -1 ->
             value r = value base ^ Z.abs (value e) mod Z.abs (value m)).
Proof.
  intros Cb Ce Cm Hz Hf Hk. apply canonical_wf in Cb, Ce, Cm.
  pose proof (wf_value_nonzero m Cm Hz) as Hnz.
  destruct (powMod_wf fuel base e m Hf Cb Ce Cm Hnz Hk) as (r & E & W).
  exists r. split; [exact E|]. split; [apply canonical_wf, W|].
  intros Hn1.
  destruct (powMod_spec fuel base e m Cb Ce Cm Hnz Hn1 Hf Hk) as (r' & E' & _ & V').
  congruence.
Qed.

Lemma powMod_any_sign_witness :
  exists r, powMod 10 (mkBigNum [2] true) (mkBigNum [5] true) (mkBigNum [7] true) = Ok r /\
            canonical r = true /\
            (value (mkBigNum [7] true) <> -1 ->
             value r = value (mkBigNum [2] true) ^ Z.abs (value (mkBigNum [5] true))
                       mod Z.abs (value (mkBigNum [7] true))).
Proof.
  apply (powMod_any_sign 10 (mkBigNum [2] true) (mkBigNum [5] true) (mkBigNum [7] true));
    [reflexivity|reflexivity|reflexivity|reflexivity|lia|vm_compute; reflexivity].
Defined.

(** ** [getBitLength] *)

Lemma bit_length_half v : 0 < v -> bit_length v = bit_length (v / 2) + 1.
Proof.
  intros Hv. unfold bit_length.
  destruct (Z.eqb_spec v 0) as [|_]; [lia|].
  pose proof (Z.div_mod v 2 ltac:(lia)) as Hdm.
  pose proof (Z.mod_pos_bound v 2 ltac:(lia)) as Hm.
  destruct (Z.eqb_spec (v / 2) 0) as [E|E].
  - assert (v = 1) by lia. subst v. reflexivity.
  - assert (Hh : 0 < v / 2) by (pose proof (Z.div_pos v 2 ltac:(lia) ltac:(lia)); lia).
    pose proof (Z.log2_spec (v / 2) Hh) as [L1 L2].
    pose proof (Z.log2_nonneg (v / 2)) as Hl.
    f_equal. apply Z.log2_unique; [lia|].
    replace (Z.log2 (v / 2) + 1 + 1) with (Z.succ (Z.succ (Z.log2 (v / 2)))) by lia.
    replace (Z.log2 (v / 2) + 1) with (Z.succ (Z.log2 (v / 2))) by lia.
    rewrite !Z.pow_succ_r by lia. rewrite Z.pow_succ_r in L2 by lia. lia.
Qed.

Lemma getBitLength_loop_spec fuel k :
  (10 <= fuel)%nat ->
  forall temp bits,
    wf temp -> 0 <= value temp < 2 ^ (Z.of_nat k - 1) ->
    0 <= bits -> bits + Z.of_nat k <= 2 ^ 31 ->
    getBitLength_loop fuel k temp bits = Ok (bits + bit_length (value temp)).
Proof.
  intros Hf. induction k as [|k IH]; intros temp bits Wt Ht Hb Hk.
  { change (Z.of_nat 0 - 1) with (-1) in Ht. rewrite Z.pow_neg_r in Ht by lia. lia. }
  cbn [getBitLength_loop]. rewrite (isZero_value temp Wt).
  destruct (Z.eqb_spec (value temp) 0) as [E0|E0].
  { rewrite E0. f_equal. change (bit_length 0) with 0. lia. }
  assert (W2 : wf (BigNum_of_ll 2) /\ value (BigNum_of_ll 2) = 2).
  { apply BigNum_of_ll_spec. unfold LLONG_MIN, LLONG_MAX. lia. }
  destruct W2 as [W2 V2].
  destruct (div_spec fuel temp _ Wt W2 ltac:(lia) Hf) as (t & -> & Wt' & Vt).
  cbn [bind]. rewrite V2, Z.quot_div_nonneg in Vt by lia.
  assert (Hk1 : 1 <= Z.of_nat k /\ value temp < 2 * 2 ^ (Z.of_nat k - 1)).
  { replace (Z.of_nat (S k) - 1) with (Z.succ (Z.of_nat k - 1)) in Ht by lia.
    destruct (Z.le_gt_cases 0 (Z.of_nat k - 1)) as [Hk0|Hk0].
    - rewrite Z.pow_succ_r in Ht by lia. lia.
    - replace (Z.succ (Z.of_nat k - 1)) with 0 in Ht by lia.
      change (2 ^ 0) with 1 in Ht. lia. }
  destruct Hk1 as [Hk1 Ht'].
  change (2 ^ 31) with 2147483648 in Hk.
  rewrite (int_small (bits + 1)) by (change (2 ^ 31) with 2147483648; lia).
  pose proof (Z.div_mod (value temp) 2 ltac:(lia)) as Hdm.
  pose proof (Z.mod_pos_bound (value temp) 2 ltac:(lia)) as Hm.
  rewrite IH; try assumption.
  - f_equal. rewrite Vt, (bit_length_half (value temp)) by lia. lia.
  - rewrite Vt. lia.
  - lia.
  - change (2 ^ 31) with 2147483648. lia.
Qed.

(** [getBitLength] of a canonical number is 1 for zero and otherwise the
    number of binary digits of the magnitude; the sign is ignored. *)
Theorem getBitLength_value (fuel : nat) (a : BigNum) :
  canonical a = true -> (10 <= fuel)%nat ->
  Z.abs (value a) < 2 ^ (Z.of_nat fuel - 1) -> Z.of_nat fuel <= 2 ^ 31 ->
  getBitLength fuel a
    = Ok (if value a =? 0 then 1 else Z.log2 (Z.abs (value a)) + 1) /\
  getBitLength fuel (neg a) = getBitLength fuel a.
Proof.
  intros Ca Hf Hk Hmax. apply canonical_wf in Ca.
  assert (G : forall x, wf x -> Z.abs (value x) < 2 ^ (Z.of_nat fuel - 1) ->
              getBitLength fuel x
              = Ok (if value x =? 0 then 1 else Z.log2 (Z.abs (value x)) + 1)).
  { intros x Wx Hx. unfold getBitLength. rewrite (isZero_value x Wx).
    destruct (Z.eqb_spec (value x) 0) as [E0|E0]; [reflexivity|].
    destruct (wf_abs x Wx) as [Wabs Vabs].
    rewrite (getBitLength_loop_spec fuel fuel Hf _ 0 Wabs) by (rewrite ?Vabs; lia).
    rewrite Vabs. unfold bit_length.
    destruct (Z.eqb_spec (Z.abs (value x)) 0); [lia|reflexivity]. }
  split; [apply G; assumption|].
  rewrite (G a Ca Hk), (G (neg a) (neg_wf a Ca)) by (rewrite neg_value, Z.abs_opp by exact Ca; exact Hk).
  rewrite (neg_value a Ca), Z.abs_opp.
  destruct (Z.eqb_spec (- value a) 0), (Z.eqb_spec (value a) 0); lia || reflexivity.
Qed.

Lemma getBitLength_value_witness :
  getBitLength 12 (mkBigNum [6; 5; 2] true)
    = Ok (if value (mkBigNum [6; 5; 2] true) =? 0 then 1
          else Z.log2 (Z.abs (value (mkBigNum [6; 5; 2] true))) + 1) /\
  getBitLength 12 (neg (mkBigNum [6; 5; 2] true)) = getBitLength 12 (mkBigNum [6; 5; 2] true).
Proof.
  apply (getBitLength_value 12 (mkBigNum [6; 5; 2] true));
    [reflexivity|lia|vm_compute; reflexivity|vm_compute; discriminate].
Defined.

(** ** [extendedGCD] and [modInverse] *)

(** On non-negative canonical operands [extendedGCD] returns the greatest
    common divisor and coefficients of Bezout's identity; two rounds of
    fuel per bit of the second operand are enough. *)
Theorem extendedGCD_bezout_nonneg (fuel : nat) (a b : BigNum) :
  canonical a = true -> canonical b = true ->
  is_negative a = false -> is_negative b = false ->
  (10 <= fuel)%nat -> value b * value b < 2 ^ (Z.of_nat fuel - 2) ->
  exists g x y,
    extendedGCD fuel a b = Ok (g, x, y) /\
    canonical g = true /\ canonical x = true /\ canonical y = true /\
    value g = Z.gcd (value a) (value b) /\
    value a * value x + value b * value y = value g.
Proof.
  intros Ca Cb Na Nb Hf Hk. apply canonical_wf in Ca, Cb.
  rewrite (wf_nonneg_value a Ca) in Na. rewrite (wf_nonneg_value b Cb) in Nb.
  apply Z.ltb_ge in Na, Nb.
  destruct (extendedGCD_rec_spec fuel Hf fuel a b Ca Cb Na Nb Hk)
    as (g & x & y & E & Wg & Wx & Wy & Vg & Bz).
  exists g, x, y. split; [exact E|].
  repeat (split; [apply canonical_wf; assumption|]). split; assumption.
Qed.

Lemma extendedGCD_bezout_nonneg_witness :
  exists g x y,
    extendedGCD 14 (mkBigNum [0; 4; 2] false) (mkBigNum [6; 4] false) = Ok (g, x, y) /\
    canonical g = true /\ canonical x = true /\ canonical y = true /\
    value g = Z.gcd (value (mkBigNum [0; 4; 2] false)) (value (mkBigNum [6; 4] false)) /\
    value (mkBigNum [0; 4; 2] false) * value x + value (mkBigNum [6; 4] false) * value y
    = value g.
Proof.
  apply (extendedGCD_bezout_nonneg 14 (mkBigNum [0; 4; 2] false) (mkBigNum [6; 4] false));
    [reflexivity|reflexivity|reflexivity|reflexivity|lia|vm_compute; reflexivity].
Defined.

(** For a modulus above 1 and an operand coprime to it, [modInverse]
    returns the one inverse there is in [0, m). *)
Theorem modInverse_unique (fuel : nat) (a m : BigNum) :
  canonical a = true -> canonical m = true -> 1 < value m ->
  Z.gcd (value a mod value m) (value m) = 1 ->
  (10 <= fuel)%nat -> value m * value m < 2 ^ (Z.of_nat fuel - 2) ->
  exists r,
    modInverse fuel a m = Ok r /\ is_negative r = false /\
    0 <= value r < value m /\
    forall x, 0 <= x < value m -> (value a * x) mod value m = 1 -> x = value r.
Proof.
  intros Ca Cm Hm Hg Hf Hk. apply canonical_wf in Ca, Cm.
  destruct (modInverse_some fuel Hf a m Ca Cm ltac:(lia) Hk Hg)
    as (r & Er & Wr & Hr & Hinv).
  rewrite (Z.mod_small 1) in Hinv by lia.
  exists r. split; [exact Er|]. split.
  { rewrite (wf_nonneg_value r Wr). apply Z.ltb_ge. lia. }
  split; [exact Hr|]. intros x Hx Hax.
  transitivity ((value a * value r * x) mod value m).
  - rewrite <- Z.mul_mod_idemp_l, Hinv, Z.mul_1_l, Z.mod_small by lia. reflexivity.
  - replace (value a * value r * x) with (value r * (value a * x)) by ring.
    rewrite <- Z.mul_mod_idemp_r, Hax, Z.mul_1_r, Z.mod_small by lia. reflexivity.
Qed.

Lemma modInverse_unique_witness :
  exists r,
    modInverse 14 (mkBigNum [0; 1] false) (mkBigNum [7; 1] false) = Ok r /\
    is_negative r = false /\
    0 <= value r < value (mkBigNum [7; 1] false) /\
    forall x, 0 <= x < value (mkBigNum [7; 1] false) ->
              (value (mkBigNum [0; 1] false) * x) mod value (mkBigNum [7; 1] false) = 1 ->
              x = value r.
Proof.
  apply (modInverse_unique 14 (mkBigNum [0; 1] false) (mkBigNum [7; 1] false));
    [reflexivity|reflexivity|vm_compute; reflexivity|vm_compute; reflexivity|lia
    |vm_compute; reflexivity].
Defined.



(** ** [toString] *)

(** The rendering of a canonical number is a minus sign exactly when the
    value is negative, followed by one digit character per digit, most
    significant first. *)
Theorem toString_format (a : BigNum) :
  canonical a = true ->
  exists body,
    list_ascii_of_string (toString a)
      = (if value a <? 0 then ["-"%char] else []) ++ body /\
    length body = length (digits a) /\
    forallb is_digit_char body = true /\
    map digit_of_char (rev body) = digits a.
Proof.
  intros Ca. apply canonical_wf in Ca. pose proof Ca as [H1 H2 H3].
  exists (map digit_char (rev (digits a))).
  assert (Hr : digits_ok (rev (digits a))) by (apply Forall_rev, H1).
  destruct (digit_char_inv _ Hr) as [Hc Hd].
  split; [|split; [|split]].
  - unfold toString. rewrite list_ascii_of_string_of_list_ascii.
    rewrite toString_loop_spec, take_ge by lia. f_equal.
    rewrite <- (wf_nonneg_value a Ca).
    destruct (is_negative a) eqn:Na; [|reflexivity].
    destruct (isZero a) eqn:Ez; [|reflexivity].
    specialize (H3 eq_refl). discriminate.
  - rewrite length_map, length_rev. reflexivity.
  - apply forallb_forall. intros c Hc'.
    rewrite Forall_forall in Hc. apply Hc, list_elem_of_In, Hc'.
  - rewrite <- map_rev, rev_involutive. apply (digit_char_inv _ H1).
Qed.

Lemma toString_format_witness :
  exists body,
    list_ascii_of_string (toString (mkBigNum [0; 5; 1] true))
      = (if value (mkBigNum [0; 5; 1] true) <? 0 then ["-"%char] else []) ++ body /\
    length body = length (digits (mkBigNum [0; 5; 1] true)) /\
    forallb is_digit_char body = true /\
    map digit_of_char (rev body) = digits (mkBigNum [0; 5; 1] true).
Proof. apply (toString_format (mkBigNum [0; 5; 1] true)). reflexivity. Defined.

(** ** The command loop *)

(** A zero divisor typed into [/] or [%], or a zero modulus typed into
    [inverse], is reported by the command's own handler and the loop goes
    on, whatever the other operand. *)
Theorem command_zero_divisor_reported (fuel : nat) (x y z : string) :
  isZero (BigNum_of_string y) = true ->
  command fuel "/" x y z = Reported DivisionByZero /\
  command fuel "%" x y z = Reported DivisionByZero /\
  command fuel "inverse" x y z = Reported DivisionByZero /\
  exit_status (command fuel "/" x y z) = None.
Proof.
  intros Hz. unfold command. cbn [String.eqb Ascii.eqb Bool.eqb].
  rewrite div_zero, mod_zero by exact Hz.
  unfold modInverse. rewrite mod_zero by exact Hz. repeat split.
Qed.

Lemma command_zero_divisor_reported_witness :
  command 0 "/" "12" "-000" "" = Reported DivisionByZero /\
  command 0 "%" "12" "-000" "" = Reported DivisionByZero /\
  command 0 "inverse" "12" "-000" "" = Reported DivisionByZero /\
  exit_status (command 0 "/" "12" "-000" "") = None.
Proof. apply (command_zero_divisor_reported 0 "12" "-000" ""). reflexivity. Defined.

(** A zero modulus typed into [mulmod], [addmod] or [pow] is not handled
    by the command: the exception reaches the handler around the loop and
    [main] returns 1. *)
Theorem command_zero_modulus_aborts (fuel : nat) (x y z : string) :
  isZero (BigNum_of_string z) = true -> (4 <= fuel)%nat ->
  command fuel "mulmod" x y z = Aborted DivisionByZero /\
  command fuel "addmod" x y z = Aborted DivisionByZero /\
  command fuel "pow" x y z = Aborted DivisionByZero /\
  exit_status (command fuel "mulmod" x y z) = Some 1 /\
  exit_status (command fuel "addmod" x y z) = Some 1 /\
  exit_status (command fuel "pow" x y z) = Some 1.
Proof.
  intros Hz Hf.
  assert (E1 : command fuel "mulmod" x y z = Aborted DivisionByZero).
  { unfold command. cbn [String.eqb Ascii.eqb Bool.eqb].
    unfold mulMod. rewrite mod_zero by exact Hz. reflexivity. }
  assert (E2 : command fuel "addmod" x y z = Aborted DivisionByZero).
  { unfold command. cbn [String.eqb Ascii.eqb Bool.eqb]. unfold addMod.
    destruct (add_spec fuel _ _ (BigNum_of_string_wf x) (BigNum_of_string_wf y) Hf)
      as (s & -> & _).
    cbn [bind]. rewrite mod_zero by exact Hz. reflexivity. }
  assert (E3 : command fuel "pow" x y z = Aborted DivisionByZero).
  { unfold command. cbn [String.eqb Ascii.eqb Bool.eqb]. unfold powMod.
    rewrite (isZero_not_isOne _ Hz), mod_zero by exact Hz. reflexivity. }
  rewrite E1, E2, E3. repeat split.
Qed.

Lemma command_zero_modulus_aborts_witness :
  command 4 "mulmod" "12" "-7" "0" = Aborted DivisionByZero /\
  command 4 "addmod" "12" "-7" "0" = Aborted DivisionByZero /\
  command 4 "pow" "12" "-7" "0" = Aborted DivisionByZero /\
  exit_status (command 4 "mulmod" "12" "-7" "0") = Some 1 /\
  exit_status (command 4 "addmod" "12" "-7" "0") = Some 1 /\
  exit_status (command 4 "pow" "12" "-7" "0") = Some 1.
Proof.
  apply (command_zero_modulus_aborts 4 "12" "-7" "0"); [reflexivity|lia].
Defined.



(** With a non-zero divisor typed, [/] prints the truncated quotient and
    [%] the non-negative remainder of the numbers read. *)
Theorem command_division_prints (fuel : nat) (x y z : string) :
  isZero (BigNum_of_string y) = false -> (10 <= fuel)%nat ->
  exists q r,
    command fuel "/" x y z = Printed (toString q) /\
    command fuel "%" x y z = Printed (toString r) /\
    canonical q = true /\ canonical r = true /\
    value q = Z.quot (value (BigNum_of_string x)) (value (BigNum_of_string y)) /\
    value r = value (BigNum_of_string x) mod Z.abs (value (BigNum_of_string y)).
Proof.
  intros Hz Hf.
  pose proof (BigNum_of_string_wf x) as Wx. pose proof (BigNum_of_string_wf y) as Wy.
  pose proof (wf_value_nonzero _ Wy Hz) as Hnz.
  destruct (div_spec fuel _ _ Wx Wy Hnz Hf) as (q & Eq & Wq & Vq).
  destruct (mod_spec fuel _ _ Wx Wy Hnz Hf) as (r & Er & Wr & Vr).
  exists q, r. unfold command. cbn [String.eqb Ascii.eqb Bool.eqb].
  rewrite Eq, Er. cbn [reply_of].
  repeat (split; [reflexivity|]).
  split; [apply canonical_wf, Wq|]. split; [apply canonical_wf, Wr|]. split; assumption.
Qed.

Lemma command_division_prints_witness :
  exists q r,
    command 10 "/" "-17" "5" "" = Printed (toString q) /\
    command 10 "%" "-17" "5" "" = Printed (toString r) /\
    canonical q = true /\ canonical r = true /\
    value q = Z.quot (value (BigNum_of_string "-17")) (value (BigNum_of_string "5")) /\
    value r = value (BigNum_of_string "-17") mod Z.abs (value (BigNum_of_string "5")).
Proof.
  apply (command_division_prints 10 "-17" "5" ""); [reflexivity|lia].
Defined.

(** ** Ring laws *)

(** Addition and multiplication of canonical numbers are associative,
    multiplication distributes over addition, and 0 and 1 are neutral:
    the results are equal as digit vectors, not only in value. *)
Theorem arithmetic_ring_laws (fuel : nat) (a b c : BigNum) :
  canonical a = true -> canonical b = true -> canonical c = true ->
  (4 <= fuel)%nat ->
  (do s <- add fuel a b; add fuel s c) = (do t <- add fuel b c; add fuel a t) /\
  mul (mul a b) c = mul a (mul b c) /\
  (do t <- add fuel b c; Ok (mul a t)) = add fuel (mul a b) (mul a c) /\
  add fuel a (BigNum_of_ll 0) = Ok a /\
  mul a (BigNum_of_ll 1) = a /\
  mul a (BigNum_of_ll 0) = BigNum_of_ll 0.
Proof.
  intros Ca Cb Cc Hf. apply canonical_wf in Ca, Cb, Cc.
  assert (W0 : wf (BigNum_of_ll 0)) by (apply canonical_wf; reflexivity).
  assert (W1 : wf (BigNum_of_ll 1)) by (apply canonical_wf; reflexivity).
  destruct (mul_spec a b Ca Cb) as [Wab Vab]. destruct (mul_spec b c Cb Cc) as [Wbc Vbc].
  destruct (mul_spec a c Ca Cc) as [Wac Vac].
  destruct (add_spec fuel a b Ca Cb Hf) as (s & Es & Ws & Vs).
  destruct (add_spec fuel b c Cb Cc Hf) as (t & Et & Wt & Vt).
  rewrite Es, Et. cbn [bind].
  split; [|split; [|split; [|split; [|split]]]].
  - pose proof (add_spec fuel s c Ws Cc Hf) as H1.
    pose proof (add_spec fuel a t Ca Wt Hf) as H2.
    rewrite Vs in H1. rewrite Vt, Z.add_assoc in H2.
    destruct (returns_same _ _ _ H1 H2) as (r & E1 & E2 & _). congruence.
  - destruct (mul_spec (mul a b) c Wab Cc) as [Wl Vl].
    destruct (mul_spec a (mul b c) Ca Wbc) as [Wr Vr].
    apply value_inj; try assumption. rewrite Vl, Vr, Vab, Vbc. ring.
  - destruct (mul_spec a t Ca Wt) as [Wat Vat]. symmetry.
    apply returns_is; [|exact Wat].
    replace (value (mul a t)) with (value (mul a b) + value (mul a c))
      by (rewrite Vat, Vt, Vab, Vac; ring).
    apply add_spec; assumption.
  - apply returns_is; [|exact Ca].
    pose proof (add_spec fuel a _ Ca W0 Hf) as H0.
    change (value (BigNum_of_ll 0)) with 0 in H0. rewrite Z.add_0_r in H0. exact H0.
  - destruct (mul_spec a _ Ca W1) as [W V]. apply value_inj; try assumption.
    rewrite V. change (value (BigNum_of_ll 1)) with 1. lia.
  - destruct (mul_spec a _ Ca W0) as [W V]. apply value_inj; try assumption.
    rewrite V. change (value (BigNum_of_ll 0)) with 0. lia.
Qed.

Lemma arithmetic_ring_laws_witness :
  (do s <- add 4 (mkBigNum [5; 9] true) (mkBigNum [7] false); add 4 s (mkBigNum [8; 8] false))
  = (do t <- add 4 (mkBigNum [7] false) (mkBigNum [8; 8] false);
     add 4 (mkBigNum [5; 9] true) t) /\
  mul (mul (mkBigNum [5; 9] true) (mkBigNum [7] false)) (mkBigNum [8; 8] false)
  = mul (mkBigNum [5; 9] true) (mul (mkBigNum [7] false) (mkBigNum [8; 8] false)) /\
  (do t <- add 4 (mkBigNum [7] false) (mkBigNum [8; 8] false);
   Ok (mul (mkBigNum [5; 9] true) t))
  = add 4 (mul (mkBigNum [5; 9] true) (mkBigNum [7] false))
          (mul (mkBigNum [5; 9] true) (mkBigNum [8; 8] false)) /\
  add 4 (mkBigNum [5; 9] true) (BigNum_of_ll 0) = Ok (mkBigNum [5; 9] true) /\
  mul (mkBigNum [5; 9] true) (BigNum_of_ll 1) = mkBigNum [5; 9] true /\
  mul (mkBigNum [5; 9] true) (BigNum_of_ll 0) = BigNum_of_ll 0.
Proof.
  apply (arithmetic_ring_laws 4 (mkBigNum [5; 9] true) (mkBigNum [7] false)
           (mkBigNum [8; 8] false));
    [reflexivity|reflexivity|reflexivity|lia].
Defined.
